(** * Cognify (hack.py): a shallow embedding and its verified properties

    [hack.py] is a Streamlit script: a plaintext account store
    ([users.json]), a per-account chat transcript ([history/<email>/chat.json]),
    a streaming client of a local Ollama endpoint, a PDF report with a
    hand-written word wrap, and the page script that ties them together.

    Conventions of the embedding.
    - A Python [str] is a list of Unicode code points ([N]); a [bytes]
      object is a list of [byte].
    - Python values that travel through [json] are the type [json].
    - A call that may raise returns a [result]; [try]/[except] is a match
      on it.
    - The file system is a finite map from path to the text of the file
      (files are opened in text mode), together with the set of
      directories.  A path is the string the script builds; two strings
      that name one file ([a] and [./a]) are two paths here.  What the
      operating system can refuse is outside the model: [os.makedirs]
      and [open] do not fail (no permissions, no name that is too long,
      no file where a directory is expected), and a file holds text, not
      bytes that fail to decode.  Statements about [signup] are therefore
      made for the runs in which it returns.
    - [json.load] either gives a value or raises [JSONDecodeError]; the
      limits of the interpreter (recursion depth, digits of an integer)
      are outside the model.
    - The endpoint is a parameter: what [requests.post] does, and what
      [iter_lines] delivers, is given by a [post_outcome]. *)

From Stdlib Require Import NArith ZArith String Ascii Lia.
From Stdlib.Strings Require Import Byte.
From stdpp Require Import base list gmap sets.
From Equations Require Import Equations.

Set Warnings "-register-all".

Local Open Scope N_scope.
Local Open Scope nat_scope.

(** ** Python strings *)

(** [char] and [str] are abbreviations, so that the list and map lemmas
    of stdpp apply to them as they stand. *)
Abbreviation char := N (only parsing).
Abbreviation str := (list N) (only parsing).

(** A literal written in ASCII. *)
Fixpoint lit (s : string) : str :=
  match s with
  | EmptyString => []
  | String a r => N_of_ascii a :: lit r
  end.

Definition SPACE : char := 32%N.
Definition NEWLINE : char := 10%N.
Definition QUOTE : char := 34%N.
(** U+274C, the cross mark that starts every error message of the client. *)
Definition CROSS_MARK : char := 10060%N.

Definition in_range (lo hi c : N) : bool := ((lo <=? c) && (c <=? hi))%N.

(** The characters [str.lstrip()] removes: those for which Python's
    [str.isspace] holds. *)
Definition is_space (c : char) : bool :=
  in_range 9 13 c || in_range 28 32 c || (c =? 133)%N || (c =? 160)%N
  || (c =? 5760)%N || in_range 8192 8202 c || (c =? 8232)%N || (c =? 8233)%N
  || (c =? 8239)%N || (c =? 8287)%N || (c =? 12288)%N.

Fixpoint lstrip (s : str) : str :=
  match s with
  | c :: r => if is_space c then lstrip r else s
  | [] => []
  end.

(** Index of the last occurrence of [c] in [s]. *)
Fixpoint last_index (c : char) (s : str) : option nat :=
  match s with
  | [] => None
  | x :: r =>
      match last_index c r with
      | Some i => Some (S i)
      | None => if (x =? c)%N then Some 0 else None
      end
  end.

(** [s.rfind(c, start, stop)] for a one-character needle and
    non-negative bounds: the highest index in [start, stop) or -1. *)
Definition rfind (s : str) (c : char) (start stop : nat) : Z :=
  match last_index c (take (stop - start) (drop start s)) with
  | Some i => Z.of_nat (start + i)
  | None => (-1)%Z
  end.

(** Slice bounds as Python reads them: a negative bound counts from the
    end, and every bound is clipped to the string. *)
Definition slice_bound (s : str) (i : Z) : nat :=
  if (i <? 0)%Z then Z.to_nat (Z.of_nat (length s) + i) else Z.to_nat i.

Definition slice_to (s : str) (i : Z) : str := take (slice_bound s i) s.
Definition slice_from (s : str) (i : Z) : str := drop (slice_bound s i) s.

(** ** Python values *)

(** The values [json] reads and writes.  A [dict] keeps its keys in
    insertion order, which is the order [json.dump] writes them in.  A
    float is kept as the literal it was read from. *)
Inductive json :=
| JNull
| JBool (b : bool)
| JInt (z : Z)
| JFloat (literal : str)
| JStr (s : str)
| JArr (xs : list json)
| JObj (kvs : list (str * json)).

(** [d[k] = v] on a dict: an existing key keeps its place. *)
Fixpoint dict_set (d : list (str * json)) (k : str) (v : json) : list (str * json) :=
  match d with
  | [] => [(k, v)]
  | (k', v') :: r =>
      if bool_decide (k' = k) then (k', v) :: r else (k', v') :: dict_set r k v
  end.

Fixpoint dict_get (d : list (str * json)) (k : str) : option json :=
  match d with
  | [] => None
  | (k', v') :: r => if bool_decide (k' = k) then Some v' else dict_get r k
  end.

(** [dict(pairs)]. *)
Definition dict_of_pairs (pairs : list (str * json)) : list (str * json) :=
  foldl (λ d kv, dict_set d kv.1 kv.2) [] pairs.

Module Json.

(** *** Encoder: [json.dumps(obj, indent=2)] *)

Definition hex_digit (d : N) : char := (if d <? 10 then 48 + d else 87 + d)%N.

(** ['{0:04x}'.format(n)] for [n < 0x10000]. *)
Definition hex4 (n : N) : str :=
  [hex_digit (n / 4096 mod 16); hex_digit (n / 256 mod 16);
   hex_digit (n / 16 mod 16); hex_digit (n mod 16)]%N.

(** [encode_basestring_ascii]: what replaces one character. *)
Definition escape_char (c : char) : str :=
  (if c =? 34 then [92; 34]
   else if c =? 92 then [92; 92]
   else if c =? 10 then [92; 110]
   else if c =? 13 then [92; 114]
   else if c =? 9 then [92; 116]
   else if c =? 8 then [92; 98]
   else if c =? 12 then [92; 102]
   else if in_range 32 126 c then [c]
   else if c <? 65536 then 92 :: 117 :: hex4 c
   else
     let n := c - 65536 in
     let s1 := N.lor 55296 (N.land (N.shiftr n 10) 1023) in
     let s2 := N.lor 56320 (N.land n 1023) in
     (92 :: 117 :: hex4 s1) ++ (92 :: 117 :: hex4 s2))%N.

Definition encode_string (s : str) : str :=
  QUOTE :: concat (map escape_char s) ++ [QUOTE].

(** Decimal digits of a natural number, most significant first. *)
Fixpoint uint_chars (u : Decimal.uint) : str :=
  match u with
  | Decimal.Nil => []
  | Decimal.D0 r => 48%N :: uint_chars r
  | Decimal.D1 r => 49%N :: uint_chars r
  | Decimal.D2 r => 50%N :: uint_chars r
  | Decimal.D3 r => 51%N :: uint_chars r
  | Decimal.D4 r => 52%N :: uint_chars r
  | Decimal.D5 r => 53%N :: uint_chars r
  | Decimal.D6 r => 54%N :: uint_chars r
  | Decimal.D7 r => 55%N :: uint_chars r
  | Decimal.D8 r => 56%N :: uint_chars r
  | Decimal.D9 r => 57%N :: uint_chars r
  end.

(** [str(n)] for an [int]. *)
Definition int_repr (z : Z) : str :=
  match z with
  | Zneg p => 45%N :: uint_chars (Pos.to_uint p)
  | _ => uint_chars (N.to_uint (Z.to_N z))
  end.

Definition newline_indent (level : nat) : str := NEWLINE :: repeat SPACE (2 * level).

(** Items separated by [sep]. *)
Fixpoint join (sep : str) (items : list str) : str :=
  match items with
  | [] => []
  | [x] => x
  | x :: r => x ++ sep ++ join sep r
  end.

Fixpoint encode (level : nat) (v : json) : str :=
  match v with
  | JNull => lit "null"
  | JBool true => lit "true"
  | JBool false => lit "false"
  | JInt z => int_repr z
  | JFloat l => l
  | JStr s => encode_string s
  | JArr [] => lit "[]"
  | JArr xs =>
      91%N :: newline_indent (S level)
        ++ join (44%N :: newline_indent (S level)) (map (encode (S level)) xs)
        ++ newline_indent level ++ [93%N]
  | JObj [] => lit "{}"
  | JObj kvs =>
      123%N :: newline_indent (S level)
        ++ join (44%N :: newline_indent (S level))
             (map (λ kv, encode_string kv.1 ++ lit ": " ++ encode (S level) kv.2) kvs)
        ++ newline_indent level ++ [125%N]
  end.

Definition dumps (v : json) : str := encode 0 v.

(** *** Decoder: [json.loads] *)

Definition is_ws (c : char) : bool :=
  ((c =? 32) || (c =? 9) || (c =? 10) || (c =? 13))%N.

Fixpoint skip_ws (s : str) : str :=
  match s with
  | c :: r => if is_ws c then skip_ws r else s
  | [] => []
  end.

Definition hex_value (c : char) : option N :=
  (if in_range 48 57 c then Some (c - 48)
   else if in_range 97 102 c then Some (c - 87)
   else if in_range 65 70 c then Some (c - 55)
   else None)%N.

Definition decode_hex4 (a b c d : char) : option N :=
  match hex_value a, hex_value b, hex_value c, hex_value d with
  | Some x, Some y, Some z, Some w => Some (((x * 16 + y) * 16 + z) * 16 + w)%N
  | _, _, _, _ => None
  end.

(** The table [BACKSLASH] of the decoder. *)
Definition unescape (c : char) : option char :=
  (if c =? 34 then Some 34
   else if c =? 92 then Some 92
   else if c =? 47 then Some 47
   else if c =? 98 then Some 8
   else if c =? 102 then Some 12
   else if c =? 110 then Some 10
   else if c =? 114 then Some 13
   else if c =? 116 then Some 9
   else None)%N.

Definition cons_fst {A B} (a : A) (r : option (list A * B)) : option (list A * B) :=
  match r with
  | Some (l, b) => Some (a :: l, b)
  | None => None
  end.

(** [scanstring], strict: the text after the opening quote, up to and
    including the closing quote. *)
Fixpoint scanstring (s : str) : option (str * str) :=
  match s with
  | [] => None
  | c :: r =>
      if (c =? 34)%N then Some ([], r)
      else if (c =? 92)%N then
        match r with
        | [] => None
        | e :: r1 =>
            if (e =? 117)%N then
              match r1 with
              | h1 :: h2 :: h3 :: h4 :: r2 =>
                  match decode_hex4 h1 h2 h3 h4 with
                  | None => None
                  | Some uni =>
                      if in_range 55296 56319 uni then
                        match r2 with
                        | b :: u :: g1 :: g2 :: g3 :: g4 :: r3 =>
                            if ((b =? 92) && (u =? 117))%N then
                              match decode_hex4 g1 g2 g3 g4 with
                              | None => None
                              | Some uni2 =>
                                  if in_range 56320 57343 uni2 then
                                    cons_fst
                                      (65536 + N.lor (N.shiftl (uni - 55296) 10)
                                                 (uni2 - 56320))%N
                                      (scanstring r3)
                                  else cons_fst uni (scanstring r2)
                              end
                            else cons_fst uni (scanstring r2)
                        | _ => cons_fst uni (scanstring r2)
                        end
                      else cons_fst uni (scanstring r2)
                  end
              | _ => None
              end
            else
              match unescape e with
              | Some ch => cons_fst ch (scanstring r1)
              | None => None
              end
        end
      else if (c <? 32)%N then None
      else cons_fst c (scanstring r)
  end.

Definition is_digit (c : char) : bool := in_range 48 57 c.

(** The longest run of digits at the head of [s], and what follows. *)
Fixpoint span_digits (s : str) : str * str :=
  match s with
  | c :: r => if is_digit c then (let '(d, t) := span_digits r in (c :: d, t)) else ([], s)
  | [] => ([], [])
  end.

Definition digits_value (d : str) : N := foldl (λ acc c, acc * 10 + (c - 48))%N 0%N d.

(** [NUMBER_RE]: an optional minus sign and either a single 0 or a
    non-zero digit followed by digits; then, optionally, a fraction (a
    dot and at least one digit) and an exponent (e or E, an optional
    sign, at least one digit). *)
Definition match_integer (s : str) : option (str * str) :=
  match s with
  | c :: r =>
      if (c =? 48)%N then Some ([c], r)
      else if is_digit c then (let '(d, t) := span_digits r in Some (c :: d, t))
      else None
  | [] => None
  end.

Definition match_frac (s : str) : str * str :=
  match s with
  | c :: r =>
      if (c =? 46)%N then
        match span_digits r with
        | ([], _) => ([], s)
        | (d, t) => (c :: d, t)
        end
      else ([], s)
  | [] => ([], s)
  end.

Definition match_exp (s : str) : str * str :=
  match s with
  | c :: r =>
      if ((c =? 101) || (c =? 69))%N then
        let '(sign, r1) :=
          match r with
          | x :: r' => if ((x =? 45) || (x =? 43))%N then ([x], r') else ([], r)
          | [] => ([], r)
          end in
        match span_digits r1 with
        | ([], _) => ([], s)
        | (d, t) => (c :: sign ++ d, t)
        end
      else ([], s)
  | [] => ([], s)
  end.

Definition parse_number (s : str) : option (json * str) :=
  let '(neg, s1) :=
    match s with
    | c :: r => if (c =? 45)%N then (true, r) else (false, s)
    | [] => (false, s)
    end in
  match match_integer s1 with
  | None => None
  | Some (int, s2) =>
      let '(frac, s3) := match_frac s2 in
      let '(exp, s4) := match_exp s3 in
      match frac, exp with
      | [], [] =>
          let n := Z.of_N (digits_value int) in
          Some (JInt (if neg then (- n)%Z else n), s4)
      | _, _ => Some (JFloat ((if neg then [45%N] else []) ++ int ++ frac ++ exp), s4)
      end
  end.

(** [s] minus the prefix [p], when it starts with it. *)
Fixpoint strip_prefix (p s : str) : option str :=
  match p, s with
  | [], _ => Some s
  | a :: p', b :: s' => if (a =? b)%N then strip_prefix p' s' else None
  | _ :: _, [] => None
  end.

(** [scan_once] with [JSONArray] and [JSONObject]; [fuel] bounds the
    number of nested calls. *)
Fixpoint parse_value (fuel : nat) (s : str) : option (json * str) :=
  match fuel with
  | 0 => None
  | S fuel =>
      match s with
      | [] => None
      | c :: r =>
          if (c =? 34)%N then
            match scanstring r with
            | Some (v, r') => Some (JStr v, r')
            | None => None
            end
          else if (c =? 123)%N then
            match skip_ws r with
            | c1 :: r1 =>
                if (c1 =? 125)%N then Some (JObj [], r1)
                else if (c1 =? 34)%N then
                  match parse_members fuel r1 with
                  | Some (pairs, r') => Some (JObj (dict_of_pairs pairs), r')
                  | None => None
                  end
                else None
            | [] => None
            end
          else if (c =? 91)%N then
            match skip_ws r with
            | c1 :: r1 =>
                if (c1 =? 93)%N then Some (JArr [], r1)
                else
                  match parse_elements fuel (c1 :: r1) with
                  | Some (xs, r') => Some (JArr xs, r')
                  | None => None
                  end
            | [] => None
            end
          else
            match strip_prefix (lit "null") s with
            | Some r' => Some (JNull, r')
            | None =>
            match strip_prefix (lit "true") s with
            | Some r' => Some (JBool true, r')
            | None =>
            match strip_prefix (lit "false") s with
            | Some r' => Some (JBool false, r')
            | None =>
            match parse_number s with
            | Some res => Some res
            | None =>
            match strip_prefix (lit "NaN") s with
            | Some r' => Some (JFloat (lit "NaN"), r')
            | None =>
            match strip_prefix (lit "Infinity") s with
            | Some r' => Some (JFloat (lit "Infinity"), r')
            | None =>
            match strip_prefix (lit "-Infinity") s with
            | Some r' => Some (JFloat (lit "-Infinity"), r')
            | None => None
            end end end end end end end
      end
  end
(** The elements of an array, from the first value to the closing
    bracket. *)
with parse_elements (fuel : nat) (s : str) : option (list json * str) :=
  match fuel with
  | 0 => None
  | S fuel =>
      match parse_value fuel s with
      | None => None
      | Some (v, r) =>
          match skip_ws r with
          | c :: r1 =>
              if (c =? 93)%N then Some ([v], r1)
              else if (c =? 44)%N then cons_fst v (parse_elements fuel (skip_ws r1))
              else None
          | [] => None
          end
      end
  end
(** The members of an object, from after the opening quote of the first
    key to the closing brace. *)
with parse_members (fuel : nat) (s : str) : option (list (str * json) * str) :=
  match fuel with
  | 0 => None
  | S fuel =>
      match scanstring s with
      | None => None
      | Some (key, r) =>
          match skip_ws r with
          | c :: r1 =>
              if (c =? 58)%N then
                match parse_value fuel (skip_ws r1) with
                | None => None
                | Some (v, r2) =>
                    match skip_ws r2 with
                    | c2 :: r3 =>
                        if (c2 =? 125)%N then Some ([(key, v)], r3)
                        else if (c2 =? 44)%N then
                          match skip_ws r3 with
                          | c3 :: r4 =>
                              if (c3 =? 34)%N
                              then cons_fst (key, v) (parse_members fuel r4)
                              else None
                          | [] => None
                          end
                        else None
                    | [] => None
                    end
                end
              else None
          | [] => None
          end
      end
  end.

(** [json.loads(s)]: [None] stands for [JSONDecodeError]. *)
Definition loads (s : str) : option json :=
  match s with
  | 65279%N :: _ => None
  | _ =>
      match parse_value (2 * length s + 2) (skip_ws s) with
      | Some (v, r) => match skip_ws r with [] => Some v | _ => None end
      | None => None
      end
  end.

End Json.

(** ** Report renderer: the word wrap of [download_pdf_report] *)

Module Report.

Definition WIDTH : nat := 90.

(** [split_pos] as the loop body computes it. *)
Definition split_pos (line : str) : Z :=
  let p := rfind line SPACE 0 WIDTH in
  if (p =? -1)%Z then Z.of_nat WIDTH else p.

Lemma last_index_lt c s i : last_index c s = Some i → i < length s.
Proof.
  revert i. induction s as [|x r IH]; intros i; simpl; [discriminate|].
  destruct (last_index c r) as [j|].
  - intros [= <-]. specialize (IH j eq_refl). lia.
  - destruct (x =? c)%N; [intros [= <-]; lia | discriminate].
Qed.

Lemma last_index_char c s i : last_index c s = Some i → s !! i = Some c.
Proof.
  revert i. induction s as [|x r IH]; intros i; simpl; [discriminate|].
  destruct (last_index c r) as [j|].
  - intros [= <-]. simpl. by apply IH.
  - destruct (x =? c)%N eqn:E; [|discriminate].
    intros [= <-]. apply N.eqb_eq in E. by subst.
Qed.

Lemma lstrip_length s : length (lstrip s) ≤ length s.
Proof. induction s as [|c r IH]; simpl; [lia|]. destruct (is_space c); simpl; lia. Qed.

Lemma lstrip_space_lt c r : is_space c = true → length (lstrip (c :: r)) < length (c :: r).
Proof. intros H. simpl. rewrite H. pose proof (lstrip_length r). lia. Qed.

Lemma is_space_SPACE : is_space SPACE = true.
Proof. reflexivity. Qed.

(** Each turn of the loop shortens the line: a break at 0 is a break at a
    space, which [lstrip] removes. *)
Lemma wrap_progress line :
  WIDTH < length line →
  length (lstrip (slice_from line (split_pos line))) < length line.
Proof.
  intros Hlen. unfold slice_from, split_pos, rfind, slice_bound.
  rewrite drop_0, Nat.sub_0_r.
  destruct (last_index SPACE (take WIDTH line)) as [i|] eqn:E.
  - pose proof (last_index_lt _ _ _ E) as Hi.
    pose proof (last_index_char _ _ _ E) as Hc.
    rewrite length_take in Hi.
    rewrite lookup_take_lt in Hc by lia.
    replace (Z.of_nat (0 + i) =? -1)%Z with false by (symmetry; apply Z.eqb_neq; lia).
    replace (Z.of_nat (0 + i) <? 0)%Z with false by (symmetry; apply Z.ltb_ge; lia).
    rewrite Nat2Z.id. simpl.
    destruct i as [|i].
    + destruct line as [|c r]; [simpl in Hlen; lia|].
      simpl in Hc. injection Hc as ->. rewrite drop_0.
      apply lstrip_space_lt, is_space_SPACE.
    + pose proof (lstrip_length (drop (S i) line)) as Hl.
      rewrite length_drop in Hl. lia.
  - change (-1 =? -1)%Z with true. cbv iota.
    replace (Z.of_nat WIDTH <? 0)%Z with false by (symmetry; apply Z.ltb_ge; lia).
    rewrite Nat2Z.id.
    pose proof (lstrip_length (drop WIDTH line)) as Hl.
    rewrite length_drop in Hl. unfold WIDTH in *. lia.
Qed.

(** The lines handed to [text.textLine] for one line of the message:
[[
    while len(line) > 90:
        split_pos = line.rfind(' ', 0, 90)
        if split_pos == -1: split_pos = 90
        text.textLine(line[:split_pos])
        line = line[split_pos:].lstrip()
    text.textLine(line)
]] *)
Equations? wrap_line (line : str) : list str by wf (length line) lt :=
  wrap_line line with le_lt_dec (length line) WIDTH => {
    | left _ := [line];
    | right H :=
        slice_to line (split_pos line)
          :: wrap_line (lstrip (slice_from line (split_pos line))) }.
Proof. by apply wrap_progress. Qed.

End Report.

(** ** Exceptions *)

(** The classes of exception the script can meet.  [Exception_] stands
    for [Exception] itself and, as the class of a raised exception, for
    any class not listed. *)
Inductive exn_class :=
| Exception_
| JSONDecodeError
| UnicodeDecodeError
| AttributeError
| TypeError
| KeyError
| ReadTimeout
| ConnectTimeout
| ConnectionError
| SSLError
| ProxyError
| ChunkedEncodingError.

#[global] Instance exn_class_eq_dec : EqDecision exn_class.
Proof. solve_decision. Defined.

Record exn := Exn { class_of : exn_class; message : str }.

(** The classes [requests] derives from its [ConnectionError]. *)
Definition is_connection_error (c : exn_class) : bool :=
  match c with
  | ConnectionError | ConnectTimeout | SSLError | ProxyError => true
  | _ => false
  end.

(** [except handler:] catches an exception of class [c]: every class is
    an [Exception], and [requests]' [ConnectTimeout], [SSLError] and
    [ProxyError] are [ConnectionError]s. *)
Definition catches (handler c : exn_class) : bool :=
  bool_decide (handler = Exception_)
  || bool_decide (handler = c)
  || (bool_decide (handler = ConnectionError) && is_connection_error c).

Inductive result (A : Type) :=
| Return (a : A)
| Raise (e : exn).
Arguments Return {A} a.
Arguments Raise {A} e.

(** ** Operations on Python values *)

Fixpoint is_prefix (p s : str) : bool :=
  match p, s with
  | [], _ => true
  | a :: p', b :: s' => (a =? b)%N && is_prefix p' s'
  | _ :: _, [] => false
  end.

(** [needle in s] for two strings. *)
Fixpoint is_substring (needle s : str) : bool :=
  is_prefix needle s
  || match s with
     | [] => false
     | _ :: r => is_substring needle r
     end.

(** [v == s] for a string [s]. *)
Definition eq_str (v : json) (s : str) : bool :=
  match v with
  | JStr t => bool_decide (t = s)
  | _ => false
  end.

(** [needle in v] for a string [needle]. *)
Definition py_contains (v : json) (needle : str) : result bool :=
  match v with
  | JStr s => Return (is_substring needle s)
  | JArr xs => Return (existsb (λ x, eq_str x needle) xs)
  | JObj kvs => Return (existsb (λ kv, bool_decide (kv.1 = needle)) kvs)
  | _ => Raise (Exn TypeError (lit "argument is not iterable"))
  end.

(** [v[key]] for a string [key]. *)
Definition py_getitem (v : json) (key : str) : result json :=
  match v with
  | JObj kvs =>
      match dict_get kvs key with
      | Some x => Return x
      | None => Raise (Exn KeyError key)
      end
  | _ => Raise (Exn TypeError (lit "indices must be integers"))
  end.

(** [v[key] = x]. *)
Definition py_setitem (v : json) (key : str) (x : json) : result json :=
  match v with
  | JObj kvs => Return (JObj (dict_set kvs key x))
  | _ => Raise (Exn TypeError (lit "object does not support item assignment"))
  end.

(** [v.get(key, default)]. *)
Definition py_get (v : json) (key : str) (default : json) : result json :=
  match v with
  | JObj kvs =>
      match dict_get kvs key with
      | Some x => Return x
      | None => Return default
      end
  | _ => Raise (Exn AttributeError (lit "object has no attribute 'get'"))
  end.

(** [v.append(x)]. *)
Definition py_append (v : json) (x : json) : result json :=
  match v with
  | JArr xs => Return (JArr (xs ++ [x]))
  | _ => Raise (Exn AttributeError (lit "object has no attribute 'append'"))
  end.

(** [bytes.decode('utf-8')], strict. *)
Fixpoint utf8_decode (b : list Byte.byte) : option str :=
  match b with
  | [] => Some []
  | b0 :: r =>
      let n0 := Byte.to_N b0 in
      if (n0 <? 128)%N then cons n0 <$> utf8_decode r
      else if in_range 194 223 n0 then
        match r with
        | b1 :: r1 =>
            let n1 := Byte.to_N b1 in
            if in_range 128 191 n1
            then cons ((n0 - 192) * 64 + (n1 - 128))%N <$> utf8_decode r1
            else None
        | _ => None
        end
      else if in_range 224 239 n0 then
        match r with
        | b1 :: b2 :: r2 =>
            let n1 := Byte.to_N b1 in
            let n2 := Byte.to_N b2 in
            if in_range (if (n0 =? 224)%N then 160 else 128)
                        (if (n0 =? 237)%N then 159 else 191) n1
               && in_range 128 191 n2
            then cons ((n0 - 224) * 4096 + (n1 - 128) * 64 + (n2 - 128))%N
                   <$> utf8_decode r2
            else None
        | _ => None
        end
      else if in_range 240 244 n0 then
        match r with
        | b1 :: b2 :: b3 :: r3 =>
            let n1 := Byte.to_N b1 in
            let n2 := Byte.to_N b2 in
            let n3 := Byte.to_N b3 in
            if in_range (if (n0 =? 240)%N then 144 else 128)
                        (if (n0 =? 244)%N then 143 else 191) n1
               && in_range 128 191 n2 && in_range 128 191 n3
            then cons ((n0 - 240) * 262144 + (n1 - 128) * 4096
                       + (n2 - 128) * 64 + (n3 - 128))%N
                   <$> utf8_decode r3
            else None
        | _ => None
        end
      else None
  end.

Definition decode_utf8 (b : list Byte.byte) : result str :=
  match utf8_decode b with
  | Some s => Return s
  | None => Raise (Exn UnicodeDecodeError (lit "'utf-8' codec can't decode bytes"))
  end.

(** [json.loads]: the message of the error is abbreviated, and text the
    interpreter gives up on ([RecursionError] on deep nesting,
    [ValueError] on an integer of thousands of digits) is read like any
    other. *)
Definition json_loads (s : str) : result json :=
  match Json.loads s with
  | Some v => Return v
  | None => Raise (Exn JSONDecodeError (lit "Expecting value"))
  end.

(** ** The world of the script: files, session state, what the page shows *)

(** [st.session_state], with the four keys the script keeps there. *)
Record session_state := Session {
  authenticated : bool;
  current_user : str;
  messages : json;
  context : str }.

(** The state the top of the script sets up when the keys are absent. *)
Definition initial_session : session_state :=
  {| authenticated := false; current_user := []; messages := JArr []; context := [] |}.

(** What a run leaves behind besides the state: notices on the page,
    files written, and the request to run the script again. *)
Inductive event :=
| StError (msg : str)
| StWarning (msg : str)
| StSuccess (msg : str)
| ChatMessage (role : str) (content : json)
| Wrote (path : str) (text : str)
| Rerun.

Record world := World {
  files : gmap (list N) (list N);
  dirs : gset (list N);
  session : session_state;
  trace : list event }.

Definition set_files (f : gmap (list N) (list N)) (w : world) : world :=
  {| files := f; dirs := dirs w; session := session w; trace := trace w |}.
Definition set_dirs (d : gset (list N)) (w : world) : world :=
  {| files := files w; dirs := d; session := session w; trace := trace w |}.
Definition set_session (s : session_state) (w : world) : world :=
  {| files := files w; dirs := dirs w; session := s; trace := trace w |}.
Definition log (e : event) (w : world) : world :=
  {| files := files w; dirs := dirs w; session := session w; trace := trace w ++ [e] |}.

Definition set_messages (m : json) (s : session_state) : session_state :=
  {| authenticated := authenticated s; current_user := current_user s;
     messages := m; context := context s |}.
Definition set_context (c : str) (s : session_state) : session_state :=
  {| authenticated := authenticated s; current_user := current_user s;
     messages := messages s; context := c |}.

(** A computation of the script: it reads and changes the world, and
    returns or raises. *)
Definition M (A : Type) : Type := world → result A * world.

Definition ret {A} (a : A) : M A := λ w, (Return a, w).
Definition raise {A} (e : exn) : M A := λ w, (Raise e, w).
Definition bind {A B} (m : M A) (k : A → M B) : M B :=
  λ w, match m w with
       | (Return a, w') => k a w'
       | (Raise e, w') => (Raise e, w')
       end.
Definition lift {A} (r : result A) : M A := λ w, (r, w).
Definition modify (f : world → world) : M unit := λ w, (Return tt, f w).

(** [try: m except handler as e: h e]. *)
Definition try_except {A} (m : M A) (handler : exn_class) (h : exn → M A) : M A :=
  λ w, match m w with
       | (Raise e, w') => if catches handler (class_of e) then h e w' else (Raise e, w')
       | r => r
       end.

Notation "'let*' x ':=' m 'in' k" := (bind m (λ x, k))
  (at level 10, x name, m at level 100, k at level 200).
Notation "m ';;' k" := (bind m (λ _, k))
  (at level 100, k at level 200, right associativity).

(** *** The file system *)

Definition path_exists (p : str) : M bool :=
  λ w, (Return (bool_decide (is_Some (files w !! p))), w).

(** [open(p, "r")] and reading the whole file.  The script reads a file
    only after [os.path.exists]. *)
Definition read_file (p : str) : M str :=
  λ w, match files w !! p with
       | Some text => (Return text, w)
       | None => (Raise (Exn Exception_ (lit "No such file or directory")), w)
       end.

(** [open(p, "w")] and writing [text]: the file is replaced. *)
Definition write_file (p : str) (text : str) : M unit :=
  modify (λ w, log (Wrote p text) (set_files (<[p := text]> (files w)) w)).

(** [os.makedirs(p, exist_ok=True)], when the operating system lets it
    happen. *)
Definition makedirs (p : str) : M unit :=
  modify (λ w, set_dirs ({[p]} ∪ dirs w) w).

(** ** Configuration *)

Definition OLLAMA_URL : str := lit "http://localhost:11434/api/generate".
Definition OLLAMA_MODEL : str := lit "granite3.3:2b".
Definition USER_DB_FILE : str := lit "users.json".
Definition HISTORY_DIR : str := lit "history".

(** ** User and history management *)

Definition st_error (msg : str) : M unit := modify (log (StError msg)).
Definition st_warning (msg : str) : M unit := modify (log (StWarning msg)).
Definition st_success (msg : str) : M unit := modify (log (StSuccess msg)).

Definition load_users : M json :=
  let* present := path_exists USER_DB_FILE in
  if negb present then ret (JObj [])
  else let* text := read_file USER_DB_FILE in lift (json_loads text).

Definition save_users (users : json) : M unit :=
  write_file USER_DB_FILE (Json.dumps users).

Definition login (email password : str) : M bool :=
  let* users := load_users in
  let* known := lift (py_contains users email) in
  if known then
    let* stored := lift (py_getitem users email) in
    ret (eq_str stored password)
  else ret false.

Definition history_dir (email : str) : str := HISTORY_DIR ++ lit "/" ++ email.
Definition history_path (email : str) : str :=
  HISTORY_DIR ++ lit "/" ++ email ++ lit "/chat.json".

(** [not s] for a string. *)
Definition is_empty (s : str) : bool := match s with [] => true | _ => false end.

Definition signup (email password : str) : M bool :=
  if is_empty email || is_empty password then
    st_error (lit "Email and password cannot be empty.");;
    ret false
  else
    let* users := load_users in
    let* known := lift (py_contains users email) in
    if known then ret false
    else
      let* users := lift (py_setitem users email (JStr password)) in
      save_users users;;
      makedirs (history_dir email);;
      ret true.

Definition load_history (email : str) : M json :=
  let path := history_path email in
  let* present := path_exists path in
  if present then
    try_except
      (let* text := read_file path in lift (json_loads text))
      JSONDecodeError
      (λ _, ret (JArr []))
  else ret (JArr []).

Definition save_history (email : str) (msgs : json) : M unit :=
  makedirs (history_dir email);;
  write_file (history_path email) (Json.dumps msgs).

(** ** The inference client: [ask_ollama_stream] *)

Module Client.

(** What the endpoint sends back once the request went through: the
    status, the body as [response.text] gives it, and what
    [response.iter_lines()] delivers: lines of bytes, ended normally or
    by an exception raised while reading. *)
Record response := Response {
  status_code : Z;
  text : result str;
  lines : list (list Byte.byte);
  lines_end : option exn }.

(** [requests.post] raises (no connection, no answer within the
    timeout, ...) or returns a response. *)
Inductive post_outcome :=
| PostRaises (e : exn)
| PostReturns (r : response).

Record request := Request {
  url : str;
  body : json;
  stream : bool;
  timeout : Z }.

Definition endpoint := request → post_outcome.

Definition NL : str := [NEWLINE].

Definition prompt (question context : str) : str :=
  lit "You are a helpful assistant. Answer the question using ONLY the context provided. If the answer is not in the context, say 'The answer is not available in the provided document.'"
  ++ NL ++ NL ++ lit "Context:" ++ NL ++ context
  ++ NL ++ NL ++ lit "Question:" ++ NL ++ question
  ++ NL ++ NL ++ lit "Answer:".

Definition payload (question context : str) : json :=
  JObj [(lit "model", JStr OLLAMA_MODEL);
        (lit "prompt", JStr (prompt question context));
        (lit "stream", JBool true)].

(** What the generator did: the values it yielded, in order, and the
    exception that left it, if one did. *)
Definition generated : Type := list json * option exn.

(** One line of the stream:
    [chunk = json.loads(line.decode('utf-8'))] and
    [chunk.get("response", "")]. *)
Definition chunk_fragment (line : list Byte.byte) : result json :=
  match decode_utf8 line with
  | Raise e => Raise e
  | Return s =>
      match json_loads s with
      | Raise e => Raise e
      | Return chunk => py_get chunk (lit "response") (JStr [])
      end
  end.

(** The loop over [response.iter_lines()]. *)
Fixpoint stream_lines (ls : list (list Byte.byte)) (ending : option exn) : generated :=
  match ls with
  | [] => ([], ending)
  | line :: rest =>
      match line with
      | [] => stream_lines rest ending
      | _ :: _ =>
          match chunk_fragment line with
          | Raise e => ([], Some e)
          | Return fragment =>
              let '(ys, r) := stream_lines rest ending in (fragment :: ys, r)
          end
      end
  end.

(** The request [requests.post] is called with. *)
Definition make_request (question context : str) : request :=
  {| url := OLLAMA_URL; body := payload question context;
     stream := true; timeout := 300 |}.

(** The body of the [try]. *)
Definition attempt (post : endpoint) (question context : str) : generated :=
  match post (make_request question context) with
  | PostRaises e => ([], Some e)
  | PostReturns r =>
      if (status_code r =? 200)%Z then stream_lines (lines r) (lines_end r)
      else
        match text r with
        | Return t =>
            ([JStr (CROSS_MARK :: lit " Ollama Error " ++ Json.int_repr (status_code r)
                      ++ lit ": " ++ t)], None)
        | Raise e => ([], Some e)
        end
  end.

Definition timed_out : str :=
  CROSS_MARK :: lit " Ollama connection timed out. The model may be taking too long to load. Please try again.".
Definition failed_to_connect (e : exn) : str :=
  CROSS_MARK :: lit " Failed to connect to Ollama. Is it running? Error: " ++ message e.
Definition unexpected (e : exn) : str :=
  CROSS_MARK :: lit " An unexpected error occurred: " ++ message e.

(** The three [except] clauses, in their order. *)
Definition ask_ollama_stream (post : endpoint) (question context : str) : generated :=
  match attempt post question context with
  | (ys, None) => (ys, None)
  | (ys, Some e) =>
      if catches ReadTimeout (class_of e) then (ys ++ [JStr timed_out], None)
      else if catches ConnectionError (class_of e) then (ys ++ [JStr (failed_to_connect e)], None)
      else if catches Exception_ (class_of e) then (ys ++ [JStr (unexpected e)], None)
      else (ys, Some e)
  end.

End Client.

(** ** The page script *)

Module App.
Import Client.

(** [st.write_stream]: text chunks are shown as they come and added up,
    an empty one is skipped, anything else is written on its own; the
    result is the text when text is all there was, and the list of what
    was written otherwise. *)
Definition flush (streamed : str) (written : list json) : list json :=
  match streamed with
  | [] => written
  | _ => written ++ [JStr streamed]
  end.

Fixpoint write_stream_loop (chunks : list json) (streamed : str) (written : list json)
  : list json :=
  match chunks with
  | [] => flush streamed written
  | JStr s :: rest => write_stream_loop rest (streamed ++ s) written
  | chunk :: rest => write_stream_loop rest [] (flush streamed written ++ [chunk])
  end.

Definition write_stream (chunks : list json) : json :=
  match write_stream_loop chunks [] [] with
  | [] => JStr []
  | [JStr s] => JStr s
  | written => JArr written
  end.

Definition get_session : M session_state := λ w, (Return (session w), w).
Definition put_session (s : session_state) : M unit := modify (set_session s).

Definition user_message (question : str) : json :=
  JObj [(lit "role", JStr (lit "user")); (lit "content", JStr question)].
Definition assistant_message (answer : json) : json :=
  JObj [(lit "role", JStr (lit "assistant")); (lit "content", answer)].

Definition WARNING_SIGN : str := [9888%N; 65039%N].
Definition CHECK_MARK : char := 9989%N.

(** The login form, when its button is pressed. *)
Definition login_form (email password : str) : M unit :=
  let* ok := login email password in
  if ok then
    let* history := load_history email in
    put_session {| authenticated := true; current_user := email;
                   messages := history; context := [] |};;
    modify (log Rerun)
  else st_error (CROSS_MARK :: lit " Invalid email or password.").

(** The sign-up form, when its button is pressed. *)
Definition signup_form (email password : str) : M unit :=
  let* ok := signup email password in
  if ok then st_success (CHECK_MARK :: lit " Account created. Please proceed to the Login tab.")
  else st_warning (WARNING_SIGN ++ lit " Email already exists or is invalid.").

(** The logout button: every key of the session state is deleted and the
    script runs again, which sets the keys up afresh. *)
Definition logout_button : M unit :=
  let* s := get_session in
  save_history (current_user s) (messages s);;
  put_session initial_session;;
  modify (log Rerun).

(** The button that clears the chat history. *)
Definition clear_button : M unit :=
  let* s := get_session in
  put_session (set_messages (JArr []) s);;
  let* s := get_session in
  save_history (current_user s) (messages s);;
  modify (log Rerun).

(** An uploaded file, as the PDF library sees it: [fitz.open] raises, or
    gives the pages, and [get_text] raises or gives the text of a page. *)
Definition uploaded_file : Type := result (list (result str)).

(** [[page.get_text() for page in doc]]. *)
Fixpoint page_texts (pages : list (result str)) : result (list str) :=
  match pages with
  | [] => Return []
  | page :: rest =>
      match page with
      | Raise e => Raise e
      | Return t =>
          match page_texts rest with
          | Raise e => Raise e
          | Return ts => Return (t :: ts)
          end
      end
  end.

(** The body of the [try] of [extract_text]. *)
Definition joined_text (file : uploaded_file) : result str :=
  match file with
  | Raise e => Raise e
  | Return pages =>
      match page_texts pages with
      | Raise e => Raise e
      | Return ts => Return (Json.join [SPACE] ts)
      end
  end.

Definition extract_text (file : uploaded_file) : M str :=
  try_except (lift (joined_text file)) Exception_
    (λ e, st_error (lit "PDF extraction failed: " ++ message e);; ret []).

(** The file uploader, when it holds a file. *)
Definition file_uploader (file : uploaded_file) : M unit :=
  let* t := extract_text file in
  let* s := get_session in
  put_session (set_context t s);;
  st_success (CHECK_MARK :: lit " Document loaded. The chat will now use this context.").

(** The handler of the chat input, when a question is entered.  In a
    run it comes after the uploader and the loop that displays the past
    messages: see [Page.chat_interface]. *)
Definition chat_input (post : endpoint) (question : str) : M unit :=
  let* s := get_session in
  if is_empty (context s) then
    st_warning (WARNING_SIGN ++ lit " Please upload a PDF document before asking questions.")
  else
    let* msgs := lift (py_append (messages s) (user_message question)) in
    put_session (set_messages msgs s);;
    modify (log (ChatMessage (lit "user") (JStr question)));;
    let* s := get_session in
    match ask_ollama_stream post question (context s) with
    | (_, Some e) => raise e
    | (chunks, None) =>
        let full_response := write_stream chunks in
        modify (log (ChatMessage (lit "assistant") full_response));;
        let* failed := lift (py_contains full_response [CROSS_MARK]) in
        if negb failed then
          let* s := get_session in
          let* msgs := lift (py_append (messages s) (assistant_message full_response)) in
          put_session (set_messages msgs s);;
          let* s := get_session in
          save_history (current_user s) (messages s)
        else ret tt
    end.

End App.

(** ** The report: the lines [download_pdf_report] draws *)

Module Render.
Import Report.

(** The characters at which [str.splitlines] ends a line. *)
Definition is_linebreak (c : char) : bool :=
  in_range 10 13 c || in_range 28 30 c || (c =? 133)%N
  || (c =? 8232)%N || (c =? 8233)%N.

(** [s.splitlines()], with [cur] the line read so far: a carriage return
    followed by a line feed is one break, and nothing follows the last
    break. *)
Fixpoint splitlines_from (cur : str) (s : str) : list str :=
  match s with
  | [] => match cur with [] => [] | _ => [cur] end
  | c :: r =>
      if (c =? 13)%N then
        match r with
        | c' :: r' =>
            if (c' =? 10)%N then cur :: splitlines_from [] r'
            else cur :: splitlines_from [] r
        | [] => cur :: splitlines_from [] r
        end
      else if is_linebreak c then cur :: splitlines_from [] r
      else splitlines_from (cur ++ [c]) r
  end.

Definition splitlines (s : str) : list str := splitlines_from [] s.

(** [for x in v]: the items in order. *)
Definition py_iter (v : json) : result (list json) :=
  match v with
  | JArr xs => Return xs
  | JObj kvs => Return (map (λ kv, JStr kv.1) kvs)
  | JStr s => Return (map (λ c, JStr [c]) s)
  | _ => Raise (Exn TypeError (lit "object is not iterable"))
  end.

Definition report_path (email : str) : str :=
  HISTORY_DIR ++ lit "/" ++ email ++ lit "/QnA_Report.pdf".

Section Formatting.

(** [str(v)] for a value that is not a string, as an f-string formats
    it. *)
Variable py_str : json → str.

Definition format_value (v : json) : str :=
  match v with
  | JStr s => s
  | _ => py_str v
  end.

(** The body of the loop over the messages: the lines handed to
    [text.textLine] for one message, the blank one included. *)
Definition message_lines (msg : json) : result (list str) :=
  match py_getitem msg (lit "role") with
  | Raise e => Raise e
  | Return r =>
      let role := if eq_str r (lit "user") then lit "You" else lit "Assistant" in
      match py_getitem msg (lit "content") with
      | Raise e => Raise e
      | Return c =>
          let full_line := role ++ lit ": " ++ format_value c in
          Return (concat (map wrap_line (splitlines full_line)) ++ [[]])
      end
  end.

Fixpoint messages_lines (msgs : list json) : result (list str) :=
  match msgs with
  | [] => Return []
  | msg :: rest =>
      match message_lines msg with
      | Raise e => Raise e
      | Return ls =>
          match messages_lines rest with
          | Raise e => Raise e
          | Return ls' => Return (ls ++ ls')
          end
      end
  end.

(** All the lines of the report below its title, in the order they are
    drawn; where the pages break is left to the PDF library. *)
Definition report_lines (messages : json) : result (list str) :=
  match py_iter messages with
  | Raise e => Raise e
  | Return msgs => messages_lines msgs
  end.

End Formatting.

End Render.

(** ** A run of the chat page: uploader, past messages, chat input *)

Module Page.
Import Client App Render.

(** [st.chat_message(name)] takes a string: it calls [name.lower()], and
    refuses [None] with an exception of its own. *)
Definition chat_message_name (role : json) : result str :=
  match role with
  | JStr name => Return name
  | JNull => Raise (Exn Exception_ (lit "The author name is required for a chat message"))
  | _ => Raise (Exn AttributeError (lit "object has no attribute 'lower'"))
  end.

(** One turn of the loop that displays the past messages:
    [st.chat_message(msg["role"])], then [st.markdown(msg["content"])],
    which shows any value as [str] gives it. *)
Definition display_message (msg : json) : M unit :=
  let* role := lift (py_getitem msg (lit "role")) in
  let* name := lift (chat_message_name role) in
  let* content := lift (py_getitem msg (lit "content")) in
  modify (log (ChatMessage name content)).

Fixpoint display_loop (msgs : list json) : M unit :=
  match msgs with
  | [] => ret tt
  | msg :: rest => display_message msg;; display_loop rest
  end.

(** [for msg in st.session_state.messages: ...]. *)
Definition display_messages : M unit :=
  let* s := get_session in
  let* msgs := lift (py_iter (messages s)) in
  display_loop msgs.

(** The main chat interface in a run in which no button of the sidebar
    is pressed: the uploader, which holds a file or none; the past
    messages; the chat input, which has a question or none (the empty
    string counts as none). *)
Definition chat_interface (upload : option uploaded_file) (post : endpoint)
    (entered : option str) : M unit :=
  match upload with
  | Some file => file_uploader file
  | None => ret tt
  end;;
  display_messages;;
  match entered with
  | Some question => if is_empty question then ret tt else chat_input post question
  | None => ret tt
  end.

End Page.

(** * Properties *)

(** ** The JSON codec *)

Module JsonFacts.
Import Json.

(** A Unicode scalar value: a code point that is not a surrogate. *)
Definition is_scalar (c : char) : bool :=
  ((c <? 55296) || in_range 57344 1114111 c)%N.

Lemma hex_value_digit d : (d < 16)%N → hex_value (hex_digit d) = Some d.
Proof.
  intros H. unfold hex_value, hex_digit, in_range.
  destruct (d <? 10)%N eqn:E.
  - apply N.ltb_lt in E.
    replace ((48 <=? 48 + d) && (48 + d <=? 57))%N with true
      by (symmetry; apply andb_true_iff; split; apply N.leb_le; lia).
    f_equal. lia.
  - apply N.ltb_ge in E.
    replace ((48 <=? 87 + d) && (87 + d <=? 57))%N with false
      by (symmetry; apply andb_false_iff; right; apply N.leb_gt; lia).
    replace ((97 <=? 87 + d) && (87 + d <=? 102))%N with true
      by (symmetry; apply andb_true_iff; split; apply N.leb_le; lia).
    f_equal. lia.
Qed.

Lemma decode_hex4_hex4 n :
  (n < 65536)%N →
  ∃ a b c d, hex4 n = [a; b; c; d] ∧ decode_hex4 a b c d = Some n.
Proof.
  intros H. unfold hex4. eexists _, _, _, _. split; [reflexivity|].
  unfold decode_hex4.
  rewrite !hex_value_digit by (apply N.mod_lt; lia).
  f_equal.
  pose proof (N.div_mod n 4096 ltac:(lia)).
  pose proof (N.div_mod n 256 ltac:(lia)).
  pose proof (N.div_mod n 16 ltac:(lia)).
  pose proof (N.Div0.mod_mul_r n 16 16).
  pose proof (N.Div0.mod_mul_r n 256 16).
  pose proof (N.Div0.mod_mul_r n 4096 16).
  change (16 * 16)%N with 256%N in *. change (256 * 16)%N with 4096%N in *.
  change (4096 * 16)%N with 65536%N in *.
  rewrite (N.mod_small n 65536) in * by done.
  lia.
Qed.

Lemma lor_shiftl_low hi lo k :
  (lo < 2 ^ k)%N → N.lor (N.shiftl hi k) lo = (hi * 2 ^ k + lo)%N.
Proof.
  intros H.
  assert (N.land (N.shiftl hi k) lo = 0%N) as Hland.
  { apply N.bits_inj. intros i. rewrite N.land_spec, N.bits_0.
    destruct (N.lt_ge_cases i k) as [Hi|Hi].
    - by rewrite N.shiftl_spec_low.
    - destruct (N.eq_dec lo 0%N) as [->|Hlo]; [by rewrite N.bits_0, andb_false_r|].
      rewrite (N.bits_above_log2 lo i), andb_false_r; [done|].
      apply N.lt_le_trans with k; [|done]. apply N.log2_lt_pow2; lia. }
  rewrite <- N.lxor_lor, <- N.add_nocarry_lxor by done.
  by rewrite N.shiftl_mul_pow2.
Qed.

(** The surrogate pair the encoder writes for a code point above the
    basic plane, and what the decoder makes of it. *)
Lemma surrogates_join c :
  (65536 <= c < 1114112)%N →
  let n := (c - 65536)%N in
  let s1 := N.lor 55296 (N.land (N.shiftr n 10) 1023) in
  let s2 := N.lor 56320 (N.land n 1023) in
  (s1 < 65536)%N ∧ (s2 < 65536)%N
  ∧ in_range 55296 56319 s1 = true ∧ in_range 56320 57343 s2 = true
  ∧ (65536 + N.lor (N.shiftl (s1 - 55296) 10) (s2 - 56320))%N = c.
Proof.
  intros Hc n s1 s2.
  assert (n < 1048576)%N as Hn by (unfold n; lia).
  assert (N.land (N.shiftr n 10) 1023 = n / 1024)%N as E1.
  { change 1023%N with (N.ones 10). rewrite N.land_ones, N.shiftr_div_pow2.
    change (2 ^ 10)%N with 1024%N. apply N.mod_small.
    apply N.Div0.div_lt_upper_bound. lia. }
  assert (N.land n 1023 = n mod 1024)%N as E2.
  { change 1023%N with (N.ones 10). by rewrite N.land_ones. }
  assert (n / 1024 < 1024)%N as Hhi by (apply N.Div0.div_lt_upper_bound; lia).
  assert (n mod 1024 < 1024)%N as Hlo by (apply N.mod_lt; lia).
  assert (s1 = 55296 + n / 1024)%N as Hs1.
  { unfold s1. rewrite E1. change 55296%N with (N.shiftl 54 10).
    rewrite lor_shiftl_low by done. reflexivity. }
  assert (s2 = 56320 + n mod 1024)%N as Hs2.
  { unfold s2. rewrite E2. change 56320%N with (N.shiftl 55 10).
    rewrite lor_shiftl_low by done. reflexivity. }
  rewrite Hs1, Hs2. unfold in_range.
  split; [lia|]. split; [lia|].
  split; [apply andb_true_iff; split; apply N.leb_le; lia|].
  split; [apply andb_true_iff; split; apply N.leb_le; lia|].
  replace (55296 + n / 1024 - 55296)%N with (n / 1024)%N by lia.
  replace (56320 + n mod 1024 - 56320)%N with (n mod 1024)%N by lia.
  rewrite lor_shiftl_low by done.
  pose proof (N.div_mod n 1024 ltac:(lia)). change (2 ^ 10)%N with 1024%N.
  unfold n in *. lia.
Qed.

Lemma scanstring_cons c r :
  scanstring (c :: r) =
    if (c =? 34)%N then Some ([], r)
    else if (c =? 92)%N then
      match r with
      | [] => None
      | e :: r1 =>
          if (e =? 117)%N then
            match r1 with
            | h1 :: h2 :: h3 :: h4 :: r2 =>
                match decode_hex4 h1 h2 h3 h4 with
                | None => None
                | Some uni =>
                    if in_range 55296 56319 uni then
                      match r2 with
                      | b :: u :: g1 :: g2 :: g3 :: g4 :: r3 =>
                          if ((b =? 92) && (u =? 117))%N then
                            match decode_hex4 g1 g2 g3 g4 with
                            | None => None
                            | Some uni2 =>
                                if in_range 56320 57343 uni2 then
                                  cons_fst
                                    (65536 + N.lor (N.shiftl (uni - 55296) 10)
                                               (uni2 - 56320))%N
                                    (scanstring r3)
                                else cons_fst uni (scanstring r2)
                            end
                          else cons_fst uni (scanstring r2)
                      | _ => cons_fst uni (scanstring r2)
                      end
                    else cons_fst uni (scanstring r2)
                end
            | _ => None
            end
          else
            match unescape e with
            | Some ch => cons_fst ch (scanstring r1)
            | None => None
            end
      end
    else if (c <? 32)%N then None
    else cons_fst c (scanstring r).
Proof. reflexivity. Qed.

(** Reading back what the encoder wrote for one character. *)
Lemma scanstring_escape_char c tail :
  is_scalar c = true →
  scanstring (escape_char c ++ tail) = cons_fst c (scanstring tail).
Proof.
  intros Hc. unfold escape_char.
  destruct (c =? 34)%N eqn:E34; [apply N.eqb_eq in E34 as ->; reflexivity|].
  destruct (c =? 92)%N eqn:E92; [apply N.eqb_eq in E92 as ->; reflexivity|].
  destruct (c =? 10)%N eqn:E10; [apply N.eqb_eq in E10 as ->; reflexivity|].
  destruct (c =? 13)%N eqn:E13; [apply N.eqb_eq in E13 as ->; reflexivity|].
  destruct (c =? 9)%N eqn:E9; [apply N.eqb_eq in E9 as ->; reflexivity|].
  destruct (c =? 8)%N eqn:E8; [apply N.eqb_eq in E8 as ->; reflexivity|].
  destruct (c =? 12)%N eqn:E12; [apply N.eqb_eq in E12 as ->; reflexivity|].
  destruct (in_range 32 126 c) eqn:Eprint.
  - change ([c] ++ tail) with (c :: tail). rewrite scanstring_cons, E34, E92.
    unfold in_range in Eprint. apply andb_true_iff in Eprint as [H1 H2].
    apply N.leb_le in H1.
    replace (c <? 32)%N with false by (symmetry; apply N.ltb_ge; lia).
    reflexivity.
  - destruct (c <? 65536)%N eqn:Ebmp.
    + apply N.ltb_lt in Ebmp.
      destruct (decode_hex4_hex4 c Ebmp) as (h1 & h2 & h3 & h4 & -> & Hd).
      change ((92%N :: 117%N :: [h1; h2; h3; h4]) ++ tail)
        with (92%N :: 117%N :: h1 :: h2 :: h3 :: h4 :: tail).
      rewrite scanstring_cons. change (92 =? 34)%N with false.
      change (92 =? 92)%N with true. change (117 =? 117)%N with true. cbv iota.
      rewrite Hd.
      replace (in_range 55296 56319 c) with false; [reflexivity|].
      symmetry. unfold is_scalar, in_range in *.
      apply orb_true_iff in Hc as [Hc|Hc].
      * apply N.ltb_lt in Hc. apply andb_false_iff. left. apply N.leb_gt. lia.
      * apply andb_true_iff in Hc as [Hc _]. apply N.leb_le in Hc.
        apply andb_false_iff. right. apply N.leb_gt. lia.
    + apply N.ltb_ge in Ebmp.
      assert (65536 <= c < 1114112)%N as Hr.
      { unfold is_scalar, in_range in Hc. apply orb_true_iff in Hc as [Hc|Hc].
        - apply N.ltb_lt in Hc. lia.
        - apply andb_true_iff in Hc as [_ Hc]. apply N.leb_le in Hc. lia. }
      destruct (surrogates_join c Hr) as (L1 & L2 & R1 & R2 & J).
      cbv zeta in *.
      set (s1 := N.lor 55296 (N.land (N.shiftr (c - 65536) 10) 1023)) in *.
      set (s2 := N.lor 56320 (N.land (c - 65536) 1023)) in *.
      destruct (decode_hex4_hex4 s1 L1) as (h1 & h2 & h3 & h4 & -> & Hd1).
      destruct (decode_hex4_hex4 s2 L2) as (g1 & g2 & g3 & g4 & -> & Hd2).
      change (((92%N :: 117%N :: [h1; h2; h3; h4])
                 ++ 92%N :: 117%N :: [g1; g2; g3; g4]) ++ tail)
        with (92%N :: 117%N :: h1 :: h2 :: h3 :: h4
                :: 92%N :: 117%N :: g1 :: g2 :: g3 :: g4 :: tail).
      rewrite scanstring_cons. change (92 =? 34)%N with false.
      change (92 =? 92)%N with true. change (117 =? 117)%N with true. cbv iota.
      rewrite Hd1, R1. cbn [andb]. rewrite Hd2, R2, J. reflexivity.
Qed.

(** A string is read back from its encoding, whatever follows. *)
Lemma scanstring_encode s rest :
  forallb is_scalar s = true →
  scanstring (concat (map escape_char s) ++ QUOTE :: rest) = Some (s, rest).
Proof.
  induction s as [|c s IH]; intros H; simpl.
  - reflexivity.
  - simpl in H. apply andb_true_iff in H as [Hc Hs].
    rewrite <- app_assoc, scanstring_escape_char by done.
    by rewrite IH.
Qed.


(** Induction on a value, with the hypothesis for every value inside. *)
Lemma json_nested_ind (P : json → Prop) :
  P JNull → (∀ b, P (JBool b)) → (∀ z, P (JInt z)) → (∀ l, P (JFloat l)) →
  (∀ s, P (JStr s)) →
  (∀ xs, Forall P xs → P (JArr xs)) →
  (∀ kvs, Forall (λ kv, P kv.2) kvs → P (JObj kvs)) →
  ∀ v, P v.
Proof.
  intros Hnull Hbool Hint Hfloat Hstr Harr Hobj.
  fix IH 1. intros [| b | z | l | s | xs | kvs].
  - exact Hnull.
  - apply Hbool.
  - apply Hint.
  - apply Hfloat.
  - apply Hstr.
  - apply Harr. induction xs as [|x xs IHxs]; constructor; [apply IH | exact IHxs].
  - apply Hobj. induction kvs as [|[k x] kvs IHkvs]; constructor; [apply IH | exact IHkvs].
Qed.

(** The values that survive a dump and a load unchanged: built from
    [null], booleans, strings of scalar values, lists, and dicts whose
    keys are such strings, each used once. *)
Fixpoint stable (v : json) : bool :=
  match v with
  | JNull | JBool _ => true
  | JInt _ | JFloat _ => false
  | JStr s => forallb is_scalar s
  | JArr xs => forallb stable xs
  | JObj kvs =>
      forallb (λ kv, forallb is_scalar kv.1 && stable kv.2) kvs
      && bool_decide (NoDup (map fst kvs))
  end.

(** Nested calls the decoder needs for a value. *)
Fixpoint need (v : json) : nat :=
  match v with
  | JArr xs => S (list_sum (map (λ x, S (need x)) xs))
  | JObj kvs => S (list_sum (map (λ kv, S (need kv.2)) kvs))
  | _ => 1
  end.

Lemma skip_ws_nonws c r : is_ws c = false → skip_ws (c :: r) = c :: r.
Proof. intros H. simpl. by rewrite H. Qed.

Lemma skip_ws_spaces n s : skip_ws (repeat SPACE n ++ s) = skip_ws s.
Proof. induction n as [|n IH]; [reflexivity|]. exact IH. Qed.

Lemma skip_ws_newline_indent k c r :
  is_ws c = false → skip_ws (newline_indent k ++ c :: r) = c :: r.
Proof.
  intros H. unfold newline_indent.
  change ((NEWLINE :: repeat SPACE (2 * k)) ++ c :: r)
    with (NEWLINE :: (repeat SPACE (2 * k) ++ c :: r)).
  change (skip_ws (NEWLINE :: ?x)) with (skip_ws x).
  rewrite skip_ws_spaces. by apply skip_ws_nonws.
Qed.

(** How an encoding starts: never with white space, nor with a closing
    bracket or brace. *)
Definition opens (c : char) : Prop :=
  is_ws c = false ∧ (c =? 93)%N = false ∧ (c =? 125)%N = false.

Lemma encode_head lvl v :
  stable v = true → ∃ c r, encode lvl v = c :: r ∧ opens c.
Proof.
  destruct v as [| [|] | z | l | s | [|x xs] | [|kv kvs]]; intros H;
    try discriminate H; eexists _, _; (split; [reflexivity|]); by repeat split.
Qed.

Definition starts_open (s : str) : Prop := ∃ c r, s = c :: r ∧ opens c.

Lemma skip_indent k s t :
  starts_open s → skip_ws (newline_indent k ++ s ++ t) = s ++ t.
Proof.
  intros (c & r & -> & Hc & _).
  change ((c :: r) ++ t) with (c :: (r ++ t)). by apply skip_ws_newline_indent.
Qed.

Lemma join_encode_head sep lvl y ys :
  stable y = true → starts_open (join sep (map (encode lvl) (y :: ys))).
Proof.
  intros Hy. destruct (encode_head lvl y Hy) as (c & r & E & Hc).
  destruct ys; simpl; rewrite E; by eexists _, _.
Qed.

Lemma parse_value_string fuel r :
  parse_value (S fuel) (QUOTE :: r) =
    match scanstring r with
    | Some (v, r') => Some (JStr v, r')
    | None => None
    end.
Proof. reflexivity. Qed.

Lemma parse_value_array fuel r :
  parse_value (S fuel) (91%N :: r) =
    match skip_ws r with
    | c1 :: r1 =>
        if (c1 =? 93)%N then Some (JArr [], r1)
        else
          match parse_elements fuel (c1 :: r1) with
          | Some (xs, r') => Some (JArr xs, r')
          | None => None
          end
    | [] => None
    end.
Proof. reflexivity. Qed.

Lemma parse_value_object fuel r :
  parse_value (S fuel) (123%N :: r) =
    match skip_ws r with
    | c1 :: r1 =>
        if (c1 =? 125)%N then Some (JObj [], r1)
        else if (c1 =? 34)%N then
          match parse_members fuel r1 with
          | Some (pairs, r') => Some (JObj (dict_of_pairs pairs), r')
          | None => None
          end
        else None
    | [] => None
    end.
Proof. reflexivity. Qed.

Lemma parse_elements_S fuel s :
  parse_elements (S fuel) s =
    match parse_value fuel s with
    | None => None
    | Some (v, r) =>
        match skip_ws r with
        | c :: r1 =>
            if (c =? 93)%N then Some ([v], r1)
            else if (c =? 44)%N then cons_fst v (parse_elements fuel (skip_ws r1))
            else None
        | [] => None
        end
    end.
Proof. reflexivity. Qed.

Lemma parse_members_S fuel s :
  parse_members (S fuel) s =
    match scanstring s with
    | None => None
    | Some (key, r) =>
        match skip_ws r with
        | c :: r1 =>
            if (c =? 58)%N then
              match parse_value fuel (skip_ws r1) with
              | None => None
              | Some (v, r2) =>
                  match skip_ws r2 with
                  | c2 :: r3 =>
                      if (c2 =? 125)%N then Some ([(key, v)], r3)
                      else if (c2 =? 44)%N then
                        match skip_ws r3 with
                        | c3 :: r4 =>
                            if (c3 =? 34)%N
                            then cons_fst (key, v) (parse_members fuel r4)
                            else None
                        | [] => None
                        end
                      else None
                  | [] => None
                  end
              end
            else None
        | [] => None
        end
    end.
Proof. reflexivity. Qed.

(** What the induction gives for a value inside a list or a dict. *)
Definition reads_back (v : json) : Prop :=
  stable v = true →
  ∀ lvl fuel rest, need v ≤ fuel →
    parse_value fuel (encode lvl v ++ rest) = Some (v, rest).

Lemma parse_elements_encode lvl xs rest fuel :
  xs ≠ [] →
  Forall reads_back xs →
  forallb stable xs = true →
  list_sum (map (λ x, S (need x)) xs) ≤ fuel →
  parse_elements fuel
    (join (44%N :: newline_indent (S lvl)) (map (encode (S lvl)) xs)
       ++ newline_indent lvl ++ 93%N :: rest)
  = Some (xs, rest).
Proof.
  revert fuel. induction xs as [|x xs IH]; [done|].
  intros fuel _ HF Hst Hfuel.
  apply Forall_cons in HF as [Hx HF].
  simpl in Hst. apply andb_true_iff in Hst as [Hsx Hst].
  simpl in Hfuel. destruct fuel as [|fuel]; [lia|].
  rewrite parse_elements_S.
  destruct xs as [|y ys].
  - simpl join. rewrite (Hx Hsx) by (simpl in Hfuel; lia).
    by rewrite skip_ws_newline_indent.
  - change (join ?sep (map ?f (x :: y :: ys)))
      with (f x ++ sep ++ join sep (map f (y :: ys))).
    rewrite <- !app_assoc.
    rewrite (Hx Hsx) by lia.
    change ((44%N :: ?a) ++ ?b) with (44%N :: (a ++ b)).
    rewrite skip_ws_nonws by reflexivity.
    change (44 =? 93)%N with false. change (44 =? 44)%N with true. cbv iota.
    rewrite skip_indent.
    + rewrite IH; [reflexivity | done | done | done | lia].
    + simpl in Hst. apply andb_true_iff in Hst as [Hsy _].
      by apply join_encode_head.
Qed.


(** One member of a dict as the encoder writes it, after its opening
    quote. *)
Definition member (lvl : nat) (kv : str * json) : str :=
  encode_string kv.1 ++ lit ": " ++ encode lvl kv.2.

Definition member_body (lvl : nat) (kv : str * json) : str :=
  concat (map escape_char kv.1) ++ QUOTE :: 58%N :: SPACE :: encode lvl kv.2.

Lemma member_unfold lvl kv : member lvl kv = QUOTE :: member_body lvl kv.
Proof.
  unfold member, member_body, encode_string.
  change (lit ": ") with [58%N; SPACE].
  change ((QUOTE :: ?a) ++ ?b) with (QUOTE :: (a ++ b)).
  by rewrite <- app_assoc.
Qed.

(** The members of a non-empty dict, after the opening quote of the
    first key. *)
Definition members_tail (sep : str) (lvl : nat) (kv : str * json)
    (kvs : list (str * json)) : str :=
  match kvs with
  | [] => member_body lvl kv
  | _ :: _ => member_body lvl kv ++ sep ++ join sep (map (member lvl) kvs)
  end.

Lemma join_members sep lvl kv kvs :
  join sep (map (member lvl) (kv :: kvs)) = QUOTE :: members_tail sep lvl kv kvs.
Proof.
  destruct kvs as [|kv' kvs].
  - apply member_unfold.
  - change (join sep (map (member lvl) (kv :: kv' :: kvs)))
      with (member lvl kv ++ sep ++ join sep (map (member lvl) (kv' :: kvs))).
    by rewrite member_unfold.
Qed.

Lemma scanstring_member_body lvl k x tail :
  forallb is_scalar k = true →
  scanstring (member_body lvl (k, x) ++ tail)
  = Some (k, 58%N :: SPACE :: encode lvl x ++ tail).
Proof.
  intros Hk. unfold member_body. cbn [fst snd]. rewrite <- app_assoc.
  change ((QUOTE :: 58%N :: SPACE :: ?a) ++ tail)
    with (QUOTE :: 58%N :: SPACE :: (a ++ tail)).
  by rewrite scanstring_encode.
Qed.

Lemma skip_ws_space_encode lvl x tail :
  stable x = true → skip_ws (SPACE :: encode lvl x ++ tail) = encode lvl x ++ tail.
Proof.
  intros Hsx. change (skip_ws (SPACE :: ?a)) with (skip_ws a).
  destruct (encode_head lvl x Hsx) as (c & r & -> & Hc & _).
  change ((c :: r) ++ ?a) with (c :: (r ++ a)). by apply skip_ws_nonws.
Qed.

Lemma parse_members_encode lvl kv kvs rest fuel :
  Forall (λ kv, reads_back kv.2) (kv :: kvs) →
  forallb (λ kv, forallb is_scalar kv.1 && stable kv.2) (kv :: kvs) = true →
  list_sum (map (λ kv, S (need kv.2)) (kv :: kvs)) ≤ fuel →
  parse_members fuel
    (members_tail (44%N :: newline_indent (S lvl)) (S lvl) kv kvs
       ++ newline_indent lvl ++ 125%N :: rest)
  = Some (kv :: kvs, rest).
Proof.
  revert kv fuel. induction kvs as [|kv' kvs IH]; intros [k x] fuel HF Hst Hfuel;
    apply Forall_cons in HF as [Hx HF]; cbn [fst snd] in Hx;
    cbn [forallb fst snd] in Hst; apply andb_true_iff in Hst as [Hkx Hst];
    apply andb_true_iff in Hkx as [Hk Hsx];
    simpl in Hfuel;
    (destruct fuel as [|fuel]; [lia|]); rewrite parse_members_S;
    unfold members_tail.
  - rewrite scanstring_member_body by done.
    rewrite skip_ws_nonws by reflexivity. change (58 =? 58)%N with true. cbv iota.
    rewrite skip_ws_space_encode by done.
    rewrite (Hx Hsx) by lia.
    by rewrite skip_ws_newline_indent.
  - rewrite <- !app_assoc.
    rewrite scanstring_member_body by done.
    rewrite skip_ws_nonws by reflexivity. change (58 =? 58)%N with true. cbv iota.
    rewrite skip_ws_space_encode by done.
    rewrite (Hx Hsx) by lia.
    change ((44%N :: ?a) ++ ?b) with (44%N :: (a ++ b)).
    rewrite skip_ws_nonws by reflexivity.
    change (44 =? 125)%N with false. change (44 =? 44)%N with true. cbv iota.
    rewrite join_members.
    change ((QUOTE :: ?a) ++ ?b) with (QUOTE :: (a ++ b)).
    rewrite skip_ws_newline_indent by reflexivity.
    change (34 =? 34)%N with true. cbv iota.
    rewrite IH; [reflexivity | done | exact Hst | simpl; lia].
Qed.

Lemma dict_set_fresh d k v :
  k ∉ map fst d → dict_set d k v = d ++ [(k, v)].
Proof.
  induction d as [|[k' v'] d IH]; intros H; simpl; [reflexivity|].
  simpl in H. apply not_elem_of_cons in H as [Hne H].
  rewrite bool_decide_eq_false_2 by congruence. by rewrite IH.
Qed.

Lemma dict_of_pairs_NoDup kvs : NoDup (map fst kvs) → dict_of_pairs kvs = kvs.
Proof.
  unfold dict_of_pairs.
  enough (∀ acc, NoDup (map fst (acc ++ kvs)) →
            foldl (λ d kv, dict_set d kv.1 kv.2) acc kvs = acc ++ kvs) as H
    by (intros Hn; by apply (H [])).
  induction kvs as [|[k v] kvs IH]; intros acc Hn; simpl.
  - by rewrite app_nil_r.
  - rewrite dict_set_fresh.
    + rewrite IH; rewrite <- app_assoc; [reflexivity | exact Hn].
    + rewrite map_app in Hn. apply NoDup_app in Hn as (_ & Hn & _).
      intros Hk. apply (Hn k Hk). simpl. left.
Qed.

(** Every stable value is read back from its encoding, at any level of
    indentation, whatever follows it. *)
Lemma parse_value_encode v : reads_back v.
Proof.
  induction v as [| b | z | l | s | xs IH | kvs IH] using json_nested_ind;
    intros Hst lvl fuel rest Hfuel;
    (destruct fuel as [|fuel]; [simpl in Hfuel; lia|]).
  - reflexivity.
  - destruct b; reflexivity.
  - discriminate.
  - discriminate.
  - simpl encode. unfold encode_string.
    change ((QUOTE :: ?a) ++ rest) with (QUOTE :: (a ++ rest)).
    rewrite parse_value_string, <- app_assoc.
    change ([QUOTE] ++ rest) with (QUOTE :: rest).
    by rewrite scanstring_encode.
  - destruct xs as [|x xs]; [reflexivity|].
    change (encode lvl (JArr (x :: xs)))
      with (91%N :: newline_indent (S lvl)
              ++ join (44%N :: newline_indent (S lvl)) (map (encode (S lvl)) (x :: xs))
              ++ newline_indent lvl ++ [93%N]).
    change ((91%N :: ?a) ++ rest) with (91%N :: (a ++ rest)).
    rewrite parse_value_array, <- !app_assoc.
    change ([93%N] ++ rest) with (93%N :: rest).
    simpl in Hst.
    assert (stable x = true) as Hsx by (by apply andb_true_iff in Hst as [? _]).
    rewrite skip_indent by (by apply join_encode_head).
    destruct (join_encode_head (44%N :: newline_indent (S lvl)) (S lvl) x xs Hsx)
      as (c & r & Ej & _ & Hc & _).
    rewrite Ej at 1. change ((c :: r) ++ ?a) with (c :: (r ++ a)).
    cbv iota beta. rewrite Hc.
    change (c :: (r ++ ?a)) with ((c :: r) ++ a). rewrite <- Ej.
    rewrite parse_elements_encode; [reflexivity | done | done | done |].
    simpl in Hfuel. simpl. lia.
  - destruct kvs as [|kv kvs]; [reflexivity|].
    change (encode lvl (JObj (kv :: kvs)))
      with (123%N :: newline_indent (S lvl)
              ++ join (44%N :: newline_indent (S lvl)) (map (member (S lvl)) (kv :: kvs))
              ++ newline_indent lvl ++ [125%N]).
    change ((123%N :: ?a) ++ rest) with (123%N :: (a ++ rest)).
    rewrite parse_value_object, <- !app_assoc.
    change ([125%N] ++ rest) with (125%N :: rest).
    simpl stable in Hst. apply andb_true_iff in Hst as [Hst Hnd].
    apply bool_decide_eq_true in Hnd.
    rewrite join_members.
    change ((QUOTE :: ?a) ++ ?b) with (QUOTE :: (a ++ b)).
    rewrite skip_ws_newline_indent by reflexivity.
    change (34 =? 125)%N with false. change (34 =? 34)%N with true. cbv iota.
    rewrite parse_members_encode; [by rewrite dict_of_pairs_NoDup | done | done |].
    simpl in Hfuel. simpl. lia.
Qed.


Lemma join_length_bound {A} (f : A → nat) (g : A → str) sep (l : list A) :
  sep ≠ [] →
  Forall (λ a, f a ≤ length (g a)) l →
  list_sum (map (λ a, S (f a)) l) ≤ S (length (join sep (map g l))).
Proof.
  intros Hsep. induction l as [|a l IH]; intros HF; [simpl; lia|].
  apply Forall_cons in HF as [Ha HF]. specialize (IH HF).
  destruct l as [|b l].
  - simpl. lia.
  - change (join sep (map g (a :: b :: l)))
      with (g a ++ sep ++ join sep (map g (b :: l))).
    rewrite !length_app.
    change (list_sum (map (λ a, S (f a)) (a :: b :: l)))
      with (S (f a) + list_sum (map (λ a, S (f a)) (b :: l))).
    destruct sep; [done|]. simpl length at 2. lia.
Qed.

Lemma need_le_length v :
  stable v = true → ∀ lvl, need v ≤ length (encode lvl v).
Proof.
  induction v as [| b | z | l | s | xs IH | kvs IH] using json_nested_ind;
    intros Hst lvl; try discriminate Hst.
  - simpl. lia.
  - destruct b; simpl; lia.
  - simpl. lia.
  - destruct xs as [|x xs]; [simpl; lia|].
    change (encode lvl (JArr (x :: xs)))
      with (91%N :: newline_indent (S lvl)
              ++ join (44%N :: newline_indent (S lvl)) (map (encode (S lvl)) (x :: xs))
              ++ newline_indent lvl ++ [93%N]).
    change (need (JArr (x :: xs)))
      with (S (list_sum (map (λ x, S (need x)) (x :: xs)))).
    pose proof (join_length_bound need (encode (S lvl))
                  (44%N :: newline_indent (S lvl)) (x :: xs)) as Hb.
    cbn [length]. rewrite !length_app.
    assert (Forall (λ a, need a ≤ length (encode (S lvl) a)) (x :: xs)) as HF.
    { change (forallb stable (x :: xs) = true) in Hst.
      rewrite forallb_forall in Hst. rewrite Forall_forall in IH.
      apply Forall_forall. intros a Ha. apply IH; [done|].
      apply Hst. by apply list_elem_of_In. }
    specialize (Hb ltac:(done) HF). simpl length at 3. lia.
  - destruct kvs as [|kv kvs]; [simpl; lia|].
    change (encode lvl (JObj (kv :: kvs)))
      with (123%N :: newline_indent (S lvl)
              ++ join (44%N :: newline_indent (S lvl)) (map (member (S lvl)) (kv :: kvs))
              ++ newline_indent lvl ++ [125%N]).
    change (need (JObj (kv :: kvs)))
      with (S (list_sum (map (λ kv, S (need kv.2)) (kv :: kvs)))).
    pose proof (join_length_bound (λ kv, need kv.2) (member (S lvl))
                  (44%N :: newline_indent (S lvl)) (kv :: kvs)) as Hb.
    cbn [length]. rewrite !length_app.
    assert (Forall (λ a, need a.2 ≤ length (member (S lvl) a)) (kv :: kvs)) as HF.
    { change (forallb (λ kv, forallb is_scalar kv.1 && stable kv.2) (kv :: kvs)
              && bool_decide (NoDup (map fst (kv :: kvs))) = true) in Hst.
      apply andb_true_iff in Hst as [Hst _].
      rewrite forallb_forall in Hst. rewrite Forall_forall in IH.
      apply Forall_forall. intros a Ha.
      assert (stable a.2 = true) as Hsa.
      { specialize (Hst a). rewrite <- list_elem_of_In in Hst.
        specialize (Hst Ha). by apply andb_true_iff in Hst as [_ ?]. }
      pose proof (IH a Ha Hsa (S lvl)) as Hn.
      unfold member. rewrite !length_app. lia. }
    specialize (Hb ltac:(done) HF). simpl length at 3. lia.
Qed.

(** The round trip of the codec: a stable value dumped with
    [indent=2] and loaded again is the same value. *)
Lemma loads_dumps v : stable v = true → loads (dumps v) = Some v.
Proof.
  intros Hst. unfold loads, dumps.
  pose proof (parse_value_encode v Hst 0 (2 * length (encode 0 v) + 2) []) as Hp.
  rewrite app_nil_r in Hp.
  pose proof (need_le_length v Hst 0) as Hn.
  destruct (encode_head 0 v Hst) as (c & r & E & Hc & _).
  assert (c ≠ 65279%N) as Hbom.
  { destruct v as [| [|] | z | l | s | [|x xs] | [|kv kvs]];
      try discriminate Hst; injection E as <- _; done. }
  rewrite E in *.
  rewrite skip_ws_nonws by done.
  rewrite Hp by lia.
  destruct c as [|p]; [reflexivity|].
  do 16 (destruct p as [p|p|]; try reflexivity). all: done.
Qed.

End JsonFacts.

(** ** The history store *)

Module HistoryFacts.
Import JsonFacts.

(** [load_history] in one piece: what it returns for each state of the
    record. *)
Lemma load_history_unfold email w :
  load_history email w =
    match files w !! history_path email with
    | None => (Return (JArr []), w)
    | Some text =>
        match Json.loads text with
        | Some v => (Return v, w)
        | None => (Return (JArr []), w)
        end
    end.
Proof.
  unfold load_history, bind, path_exists, try_except, read_file, lift, json_loads, ret.
  destruct (files w !! history_path email) as [text|] eqn:E.
  - rewrite bool_decide_eq_true_2 by eauto. rewrite E.
    destruct (Json.loads text); reflexivity.
  - rewrite bool_decide_eq_false_2; [reflexivity|]. by intros [? ?].
Qed.

(** The world after [save_history]. *)
Definition saved (email : str) (msgs : json) (w : world) : world :=
  {| files := <[history_path email := Json.dumps msgs]> (files w);
     dirs := {[history_dir email]} ∪ dirs w;
     session := session w;
     trace := trace w ++ [Wrote (history_path email) (Json.dumps msgs)] |}.

Lemma save_history_unfold email msgs w :
  save_history email msgs w = (Return tt, saved email msgs w).
Proof. reflexivity. Qed.

Lemma load_after_save email msgs w :
  stable msgs = true →
  load_history email (saved email msgs w) = (Return msgs, saved email msgs w).
Proof.
  intros H. rewrite load_history_unfold. cbn [files saved].
  rewrite lookup_insert_eq. by rewrite loads_dumps.
Qed.

(** A message of the transcript, as the data model has it. *)
Inductive role := User | Assistant.

Record Message := { msg_role : role; msg_content : str }.

Definition role_name (r : role) : str :=
  match r with
  | User => lit "user"
  | Assistant => lit "assistant"
  end.

Definition message_json (m : Message) : json :=
  JObj [(lit "role", JStr (role_name (msg_role m)));
        (lit "content", JStr (msg_content m))].

Definition transcript_json (T : list Message) : json := JArr (map message_json T).

(** The content of a message is text: a sequence of Unicode scalar
    values. *)
Definition is_text (s : str) : Prop := forallb is_scalar s = true.

Lemma stable_transcript T :
  Forall (λ m, is_text (msg_content m)) T → stable (transcript_json T) = true.
Proof.
  intros H. unfold transcript_json. cbn [stable].
  induction H as [|m T Hm _ IH]; [reflexivity|].
  cbn [map forallb]. rewrite IH, andb_true_r.
  unfold message_json. cbn [stable forallb fst snd map].
  rewrite Hm. destruct (msg_role m); reflexivity.
Qed.

(** C3.  For every identity and every transcript (a sequence of messages,
    the empty one included, whose contents are text), [save_history]
    returns, and [load_history] called right after it returns that very
    transcript. *)
Theorem save_then_load (email : str) (T : list Message) (w : world) :
  Forall (λ m, is_text (msg_content m)) T →
  ∃ w', save_history email (transcript_json T) w = (Return tt, w')
        ∧ load_history email w' = (Return (transcript_json T), w').
Proof.
  intros H. exists (saved email (transcript_json T) w). split.
  - apply save_history_unfold.
  - by apply load_after_save, stable_transcript.
Qed.


(** A world with nothing in it but what the examples put there. *)
Definition empty_world : world :=
  {| files := ∅; dirs := ∅; session := initial_session; trace := [] |}.

Definition alice : str := lit "a@x.com".

Definition two_messages : list Message :=
  [ {| msg_role := User; msg_content := lit "What is X?" |};
    {| msg_role := Assistant; msg_content := lit "The answer." |} ].

Lemma save_then_load_witness :
  (∃ w', save_history alice (transcript_json two_messages) empty_world = (Return tt, w')
         ∧ load_history alice w' = (Return (transcript_json two_messages), w'))
  ∧ (∃ w', save_history alice (transcript_json []) empty_world = (Return tt, w')
           ∧ load_history alice w' = (Return (transcript_json []), w')).
Proof.
  split.
  - apply (save_then_load alice two_messages empty_world).
    repeat constructor.
  - apply (save_then_load alice [] empty_world). constructor.
Defined.

(** The two cases [load_history] provides for: there is no record, or
    [json.load] raises [JSONDecodeError] on its text; the empty list is
    returned.  A damaged record on which reading raises anything else
    (bytes that are no text, nesting beyond the recursion limit) is not
    among the files of this model; the handler would not catch it, see
    [history_handler_is_narrow]. *)
Theorem load_history_missing_or_corrupt (email : str) (w : world) :
  files w !! history_path email = None
  ∨ (∃ text, files w !! history_path email = Some text ∧ Json.loads text = None) →
  load_history email w = (Return (JArr []), w).
Proof.
  intros [H|(text & H & Hp)]; rewrite load_history_unfold, H; [reflexivity|].
  by rewrite Hp.
Qed.

(** [except json.JSONDecodeError] catches that class and no other:
    whatever else the body of the [try] raises leaves [load_history]. *)
Lemma history_handler_is_narrow (body : M json) (e : exn) (w w' : world) :
  body w = (Raise e, w') →
  try_except body JSONDecodeError (λ _, ret (JArr [])) w
  = if bool_decide (class_of e = JSONDecodeError) then (Return (JArr []), w')
    else (Raise e, w').
Proof.
  intros H. unfold try_except. rewrite H. by destruct e as [[] msg].
Qed.

(** A world in which the record of [alice] is the text [text]. *)
Definition with_record (text : str) : world :=
  set_files {[history_path alice := text]} empty_world.

Lemma with_record_lookup text :
  files (with_record text) !! history_path alice = Some text.
Proof. apply lookup_singleton_eq. Qed.

Lemma load_history_missing_or_corrupt_witness :
  load_history alice empty_world = (Return (JArr []), empty_world)
  ∧ load_history alice (with_record (lit "[{'role': "))
    = (Return (JArr []), with_record (lit "[{'role': ")).
Proof.
  split.
  - apply (load_history_missing_or_corrupt alice empty_world). left. apply lookup_empty.
  - apply (load_history_missing_or_corrupt alice (with_record (lit "[{'role': "))).
    right. eexists. split; [apply with_record_lookup | reflexivity].
Defined.

(** C10.  [load_history] does not look at the shape of what it read: a
    record that parses as JSON is returned as the value it parses to,
    whatever that is; the empty list comes back only when the text does
    not parse, or parses to the empty list itself. *)
Theorem load_history_verbatim (email : str) (w : world) (text : str) :
  files w !! history_path email = Some text →
  (∀ v, Json.loads text = Some v → load_history email w = (Return v, w))
  ∧ (load_history email w = (Return (JArr []), w) →
       Json.loads text = None ∨ Json.loads text = Some (JArr [])).
Proof.
  intros H. rewrite load_history_unfold, H. split.
  - by intros v ->.
  - destruct (Json.loads text) as [v|]; [|by left].
    intros [= ->]. by right.
Qed.


(** Three records that are JSON but no transcript: a dict, a string, and
    a list whose entries have neither role nor content. *)
Definition quoted (s : string) : str := QUOTE :: lit s ++ [QUOTE].
Definition record_dict : str := lit "{" ++ quoted "a" ++ lit ": 1}".
Definition record_string : str := quoted "hello".
Definition record_list : str := lit "[{" ++ quoted "x" ++ lit ": true}, 3]".

Lemma load_history_verbatim_witness :
  load_history alice (with_record record_dict)
    = (Return (JObj [(lit "a", JInt 1)]), with_record record_dict)
  ∧ load_history alice (with_record record_string)
    = (Return (JStr (lit "hello")), with_record record_string)
  ∧ load_history alice (with_record record_list)
    = (Return (JArr [JObj [(lit "x", JBool true)]; JInt 3]), with_record record_list).
Proof.
  split; [|split].
  - apply (load_history_verbatim alice (with_record record_dict) record_dict
             (with_record_lookup _)).
    reflexivity.
  - apply (load_history_verbatim alice (with_record record_string) record_string
             (with_record_lookup _)).
    reflexivity.
  - apply (load_history_verbatim alice (with_record record_list) record_list
             (with_record_lookup _)).
    reflexivity.
Defined.

End HistoryFacts.

(** ** The account store *)

Module AccountFacts.
Import JsonFacts.

(** The accounts the file [users.json] holds: none when the file does
    not exist, the dict it parses to otherwise. *)
Definition account_store (w : world) (users : list (str * json)) : Prop :=
  match files w !! USER_DB_FILE with
  | None => users = []
  | Some text => Json.loads text = Some (JObj users)
  end.

Lemma load_users_unfold w :
  load_users w =
    match files w !! USER_DB_FILE with
    | None => (Return (JObj []), w)
    | Some text => (json_loads text, w)
    end.
Proof.
  unfold load_users, bind, path_exists, read_file, lift, ret.
  destruct (files w !! USER_DB_FILE) as [text|] eqn:E.
  - rewrite bool_decide_eq_true_2 by eauto. cbn [negb]. by rewrite E.
  - rewrite bool_decide_eq_false_2; [reflexivity|]. by intros [? ?].
Qed.

Lemma load_users_store w users :
  account_store w users → load_users w = (Return (JObj users), w).
Proof.
  unfold account_store. rewrite load_users_unfold.
  destruct (files w !! USER_DB_FILE) as [text|].
  - unfold json_loads. by intros ->.
  - by intros ->.
Qed.

Lemma existsb_key users email :
  existsb (λ kv : str * json, bool_decide (kv.1 = email)) users
  = bool_decide (is_Some (dict_get users email)).
Proof.
  induction users as [|[k v] users IH]; cbn [existsb dict_get fst].
  - symmetry. apply bool_decide_eq_false_2. by intros [? ?].
  - destruct (bool_decide (k = email)); cbn [orb]; [|exact IH].
    symmetry. apply bool_decide_eq_true_2. eauto.
Qed.

Lemma eq_str_true v s : eq_str v s = true ↔ v = JStr s.
Proof.
  destruct v as [| b | z | l | t | xs | kvs]; cbn [eq_str];
    try (split; [discriminate | congruence]).
  rewrite bool_decide_eq_true. split; [by intros -> | by intros [= ->]].
Qed.

Lemma login_unfold w users email password :
  account_store w users →
  login email password w
  = (Return match dict_get users email with
            | Some stored => eq_str stored password
            | None => false
            end, w).
Proof.
  intros Hst. unfold login, bind. rewrite (load_users_store _ _ Hst).
  unfold lift. cbn [py_contains]. rewrite existsb_key.
  destruct (dict_get users email) as [stored|] eqn:E.
  - rewrite bool_decide_eq_true_2 by eauto. cbn [py_getitem]. by rewrite E.
  - by rewrite bool_decide_eq_false_2 by (by intros [? ?]).
Qed.

(** C5.  For every state of the account store and every identity and
    credential, [login] returns, and it returns [True] exactly when the
    store has the identity and what is stored for it is the very string
    that was supplied. *)
Theorem login_iff (w : world) (users : list (str * json)) (email password : str) :
  account_store w users →
  ∃ ok, login email password w = (Return ok, w)
        ∧ (ok = true ↔
             ∃ stored, dict_get users email = Some stored ∧ stored = JStr password).
Proof.
  intros Hst. eexists. split; [by apply login_unfold|].
  destruct (dict_get users email) as [stored|].
  - rewrite eq_str_true. split; [by eauto|]. by intros (? & [= <-] & ->).
  - split; [discriminate|]. by intros (? & ? & _).
Qed.


Lemma is_empty_true (s : str) : is_empty s = true ↔ s = [].
Proof. destruct s; simpl; split; congruence. Qed.

Lemma dict_get_None users email :
  dict_get users email = None → email ∉ map fst users.
Proof.
  induction users as [|[k v] users IH]; cbn [dict_get map fst].
  - intros _. apply not_elem_of_nil.
  - destruct (bool_decide (k = email)) eqn:E; [discriminate|].
    apply bool_decide_eq_false in E. intros H. apply not_elem_of_cons.
    split; [congruence | by apply IH].
Qed.

(** The world after a successful sign-up. *)
Definition signed_up (users : list (str * json)) (email password : str) (w : world)
  : world :=
  let text := Json.dumps (JObj (users ++ [(email, JStr password)])) in
  {| files := <[USER_DB_FILE := text]> (files w);
     dirs := {[history_dir email]} ∪ dirs w;
     session := session w;
     trace := trace w ++ [Wrote USER_DB_FILE text] |}.

Lemma signup_empty w email password :
  email = [] ∨ password = [] →
  signup email password w
  = (Return false, log (StError (lit "Email and password cannot be empty.")) w).
Proof.
  intros H. unfold signup.
  replace (is_empty email || is_empty password) with true; [reflexivity|].
  symmetry. apply orb_true_iff. by rewrite !is_empty_true.
Qed.

Lemma signup_nonempty w users email password :
  account_store w users → email ≠ [] → password ≠ [] →
  signup email password w
  = match dict_get users email with
    | Some _ => (Return false, w)
    | None => (Return true, signed_up users email password w)
    end.
Proof.
  intros Hst He Hp. unfold signup.
  replace (is_empty email || is_empty password) with false.
  2:{ symmetry. apply orb_false_iff. split; apply not_true_is_false;
      by rewrite is_empty_true. }
  unfold bind. rewrite (load_users_store _ _ Hst).
  unfold lift. cbn [py_contains]. rewrite existsb_key.
  destruct (dict_get users email) as [stored|] eqn:E.
  - by rewrite bool_decide_eq_true_2 by eauto.
  - rewrite bool_decide_eq_false_2 by (by intros [? ?]).
    cbn [py_setitem]. rewrite dict_set_fresh by (by apply dict_get_None).
    reflexivity.
Qed.

(** A sign-up that returned [True] was one of a new identity with both
    fields filled in, and left the world [signed_up]. *)
Lemma signup_true w users email password w' :
  account_store w users →
  signup email password w = (Return true, w') →
  email ≠ [] ∧ password ≠ [] ∧ dict_get users email = None
  ∧ w' = signed_up users email password w.
Proof.
  intros Hst H.
  destruct (decide (email = [])) as [He|He];
    [rewrite signup_empty in H by (by left); discriminate|].
  destruct (decide (password = [])) as [Hp|Hp];
    [rewrite signup_empty in H by (by right); discriminate|].
  rewrite (signup_nonempty _ _ _ _ Hst He Hp) in H.
  destruct (dict_get users email); [discriminate|].
  injection H as <-. done.
Qed.

(** C6.  [signup] returns [False] when the identity or the credential
    is empty, and when the store already has the identity; in these
    cases no file and no directory changes.  In every other case it does
    not return [False], and when it returns, which it does once
    [os.makedirs] has created the directory, the account file has been
    rewritten with the new account after the old ones, the directory
    [history/<identity>] exists, which is the one the record
    [chat.json] of the identity lies in, and the store read again holds
    the old accounts and the new one. *)
Theorem signup_spec (w : world) (email password : str) :
  (email = [] ∨ password = [] →
     ∃ w', signup email password w = (Return false, w')
           ∧ files w' = files w ∧ dirs w' = dirs w)
  ∧ ∀ users, account_store w users → email ≠ [] → password ≠ [] →
      (is_Some (dict_get users email) →
         signup email password w = (Return false, w))
      ∧ (dict_get users email = None →
           ∀ ok w', signup email password w = (Return ok, w') →
             ok = true
             ∧ files w'
               = <[lit "users.json" :=
                     Json.dumps (JObj (users ++ [(email, JStr password)]))]>
                   (files w)
             ∧ dirs w' = {[lit "history/" ++ email]} ∪ dirs w
             ∧ history_path email = (lit "history/" ++ email) ++ lit "/chat.json"
             ∧ (stable (JObj (users ++ [(email, JStr password)])) = true →
                  account_store w' (users ++ [(email, JStr password)]))).
Proof.
  split.
  - intros H. eexists. split; [by apply signup_empty|]. by split.
  - intros users Hst He Hp. rewrite (signup_nonempty _ _ _ _ Hst He Hp). split.
    + by intros [stored ->].
    + intros -> ok w' [= <- <-].
      split; [reflexivity|]. split; [reflexivity|]. split; [reflexivity|].
      split; [reflexivity|].
      intros Hstable. unfold account_store. cbn [files signed_up].
      rewrite lookup_insert_eq. by apply loads_dumps.
Qed.


Lemma dict_get_snoc users email v :
  dict_get users email = None → dict_get (users ++ [(email, v)]) email = Some v.
Proof.
  induction users as [|[k x] users IH]; cbn [dict_get app].
  - by rewrite bool_decide_eq_true_2.
  - destruct (bool_decide (k = email)); [discriminate | exact IH].
Qed.

(** X2.  Once a sign-up has returned [True], the identity logs in with
    the credential it registered with and with no other, and cannot be
    registered again, whatever credential is offered the second time. *)
Theorem signup_then_login (w : world) (users : list (str * json))
    (email password : str) (w' : world) :
  account_store w users →
  stable (JObj (users ++ [(email, JStr password)])) = true →
  signup email password w = (Return true, w') →
  (∀ offered, login email offered w'
              = (Return (bool_decide (offered = password)), w'))
  ∧ (∀ offered, ∃ w'', signup email offered w' = (Return false, w'')
                       ∧ files w'' = files w' ∧ dirs w'' = dirs w').
Proof.
  intros Hst Hstable Hrun.
  destruct (signup_true _ _ _ _ _ Hst Hrun) as (He & Hp & Hnew & ->).
  assert (account_store (signed_up users email password w)
            (users ++ [(email, JStr password)])) as Hst'.
  { unfold account_store. cbn [files signed_up].
    rewrite lookup_insert_eq. by apply loads_dumps. }
  split.
  - intros offered. rewrite (login_unfold _ _ _ _ Hst'), dict_get_snoc by done.
    cbn [eq_str]. do 2 f_equal. apply bool_decide_ext. split; by intros ->.
  - intros offered. destruct offered as [|c offered].
    + eexists. rewrite signup_empty by (by right). by split.
    + eexists. rewrite (signup_nonempty _ _ _ _ Hst' He) by done.
      rewrite dict_get_snoc by done. by split.
Qed.

(** The store after [alice] signed up with the password [pw1]. *)
Definition pw1 : str := lit "pw1".
Definition alice_registered : world :=
  signed_up [] HistoryFacts.alice pw1 HistoryFacts.empty_world.

Lemma account_store_empty : account_store HistoryFacts.empty_world [].
Proof.
  unfold account_store, HistoryFacts.empty_world. cbn [files].
  by rewrite lookup_empty.
Qed.

Lemma account_store_alice :
  account_store alice_registered [(HistoryFacts.alice, JStr pw1)].
Proof.
  unfold account_store, alice_registered. cbn [files signed_up].
  rewrite lookup_insert_eq. reflexivity.
Qed.

Lemma login_iff_witness :
  (∃ ok, login HistoryFacts.alice pw1 alice_registered = (Return ok, alice_registered)
         ∧ (ok = true ↔
              ∃ stored, dict_get [(HistoryFacts.alice, JStr pw1)] HistoryFacts.alice
                        = Some stored ∧ stored = JStr pw1))
  ∧ (∃ ok, login HistoryFacts.alice (lit "PW1") alice_registered
           = (Return ok, alice_registered)
           ∧ (ok = true ↔
                ∃ stored, dict_get [(HistoryFacts.alice, JStr pw1)] HistoryFacts.alice
                          = Some stored ∧ stored = JStr (lit "PW1"))).
Proof.
  split.
  - apply (login_iff alice_registered [(HistoryFacts.alice, JStr pw1)]
             HistoryFacts.alice pw1 account_store_alice).
  - apply (login_iff alice_registered [(HistoryFacts.alice, JStr pw1)]
             HistoryFacts.alice (lit "PW1") account_store_alice).
Defined.

(** Registering [alice] in the empty store succeeds; registering her
    again fails and changes nothing. *)
Lemma signup_spec_witness :
  signup HistoryFacts.alice pw1 HistoryFacts.empty_world = (Return true, alice_registered)
  ∧ files alice_registered
    = <[lit "users.json" :=
          Json.dumps (JObj ([] ++ [(HistoryFacts.alice, JStr pw1)]))]>
        (files HistoryFacts.empty_world)
  ∧ dirs alice_registered = {[lit "history/" ++ HistoryFacts.alice]} ∪ ∅
  ∧ signup HistoryFacts.alice (lit "other") alice_registered
    = (Return false, alice_registered).
Proof.
  assert (signup HistoryFacts.alice pw1 HistoryFacts.empty_world
          = (Return true, alice_registered)) as Hrun by reflexivity.
  destruct (signup_spec HistoryFacts.empty_world HistoryFacts.alice pw1) as [_ Hnew].
  destruct (Hnew [] account_store_empty) as [_ Hadd]; [discriminate | discriminate|].
  destruct (Hadd eq_refl true alice_registered Hrun) as (_ & Hf & Hd & _).
  split; [exact Hrun|]. split; [exact Hf|]. split; [exact Hd|].
  apply (signup_spec alice_registered HistoryFacts.alice (lit "other")
           : _ ∧ _) with (users := [(HistoryFacts.alice, JStr pw1)]);
    [exact account_store_alice | discriminate | discriminate | by eexists].
Defined.

Lemma signup_then_login_witness :
  (∀ offered, login HistoryFacts.alice offered alice_registered
              = (Return (bool_decide (offered = pw1)), alice_registered))
  ∧ (∀ offered, ∃ w'', signup HistoryFacts.alice offered alice_registered
                       = (Return false, w'')
                       ∧ files w'' = files alice_registered
                       ∧ dirs w'' = dirs alice_registered).
Proof.
  apply (signup_then_login HistoryFacts.empty_world [] HistoryFacts.alice pw1
           alice_registered);
    [exact account_store_empty | reflexivity | reflexivity].
Defined.

End AccountFacts.

(** ** The inference client *)

Module ClientFacts.
Import Client.

(** The fragment the [except] clauses yield for an exception. *)
Definition failure_fragment (e : exn) : str :=
  if catches ReadTimeout (class_of e) then timed_out
  else if catches ConnectionError (class_of e) then failed_to_connect e
  else unexpected e.

Lemma catches_Exception c : catches Exception_ c = true.
Proof. reflexivity. Qed.

Lemma ask_ollama_stream_unfold post question context :
  ask_ollama_stream post question context =
    match attempt post question context with
    | (ys, None) => (ys, None)
    | (ys, Some e) => (ys ++ [JStr (failure_fragment e)], None)
    end.
Proof.
  unfold ask_ollama_stream, failure_fragment.
  destruct (attempt post question context) as [ys [e|]]; [|reflexivity].
  destruct (catches ReadTimeout (class_of e)); [reflexivity|].
  destruct (catches ConnectionError (class_of e)); [reflexivity|].
  by rewrite catches_Exception.
Qed.

Lemma failure_fragment_marked e : ∃ text, failure_fragment e = CROSS_MARK :: text.
Proof.
  unfold failure_fragment.
  destruct (catches ReadTimeout (class_of e)); [by eexists|].
  destruct (catches ConnectionError (class_of e)); by eexists.
Qed.

(** The generator ends normally whatever the endpoint does: no exception
    leaves it. *)
Lemma ask_ollama_stream_returns post question context :
  ∃ ys, ask_ollama_stream post question context = (ys, None).
Proof.
  rewrite ask_ollama_stream_unfold.
  destruct (attempt post question context) as [ys [e|]]; by eexists.
Qed.

(** An endpoint that cannot be reached. *)
Definition unreachable : endpoint :=
  λ _, PostRaises (Exn ConnectionError (lit "Connection refused")).

(** An endpoint that answers every request with status 500. *)
Definition broken : endpoint :=
  λ _, PostReturns {| status_code := 500; text := Return (lit "model not found");
                      lines := []; lines_end := None |}.

(** The lines the loop does not skip. *)
Fixpoint nonblank (ls : list (list Byte.byte)) : list (list Byte.byte) :=
  match ls with
  | [] => []
  | [] :: rest => nonblank rest
  | line :: rest => line :: nonblank rest
  end.

(** [line] is a record carrying the text [fragment]: it decodes to a
    JSON object whose ["response"] is that text, or which has no
    ["response"] when the text is empty. *)
Definition carries (line : list Byte.byte) (fragment : str) : Prop :=
  ∃ s kvs, utf8_decode line = Some s
           ∧ Json.loads s = Some (JObj kvs)
           ∧ (dict_get kvs (lit "response") = Some (JStr fragment)
              ∨ (dict_get kvs (lit "response") = None ∧ fragment = [])).

Lemma chunk_fragment_carries line fragment :
  carries line fragment → chunk_fragment line = Return (JStr fragment).
Proof.
  intros (s & kvs & Hd & Hl & Hr).
  unfold chunk_fragment, decode_utf8, json_loads. rewrite Hd, Hl. cbn [py_get].
  destruct Hr as [-> | [-> ->]]; reflexivity.
Qed.

Lemma stream_lines_fragments ls fragments :
  Forall2 carries (nonblank ls) fragments →
  stream_lines ls None = (map JStr fragments, None).
Proof.
  revert fragments. induction ls as [|line rest IH]; intros fragments H.
  - apply Forall2_nil_inv_l in H as ->. reflexivity.
  - destruct line as [|b line].
    + cbn [nonblank] in H. cbn [stream_lines]. by apply IH.
    + cbn [nonblank] in H.
      apply Forall2_cons_inv_l in H as (fragment & fragments' & Hc & H & ->).
      cbn [stream_lines]. rewrite (chunk_fragment_carries _ _ Hc).
      by rewrite (IH _ H).
Qed.

Lemma write_stream_loop_text fragments streamed :
  App.write_stream_loop (map JStr fragments) streamed []
  = App.flush (streamed ++ concat fragments) [].
Proof.
  revert streamed. induction fragments as [|f fragments IH]; intros streamed.
  - cbn. by rewrite app_nil_r.
  - cbn [map App.write_stream_loop concat]. by rewrite IH, <- app_assoc.
Qed.

Lemma write_stream_text fragments :
  App.write_stream (map JStr fragments) = JStr (concat fragments).
Proof.
  unfold App.write_stream. rewrite write_stream_loop_text.
  cbn [app]. by destruct (concat fragments).
Qed.

(** C8.  For every response with status 200 whose lines (blank ones
    apart) are records, each carrying a text, and which ends normally,
    the generator yields the texts of the records, one per record and in
    their order, each read from its own line; put together they are the
    whole answer, which is what [st.write_stream] returns. *)
Theorem stream_yields_the_fragments (post : endpoint) (question context : str)
    (r : response) (fragments : list str) :
  post (make_request question context) = PostReturns r →
  status_code r = 200%Z →
  lines_end r = None →
  Forall2 carries (nonblank (lines r)) fragments →
  ask_ollama_stream post question context = (map JStr fragments, None)
  ∧ App.write_stream (map JStr fragments) = JStr (concat fragments).
Proof.
  intros H Hs He Hl. split; [|apply write_stream_text].
  unfold ask_ollama_stream, attempt. rewrite H, Hs, He. cbn [Z.eqb Pos.eqb].
  by rewrite (stream_lines_fragments _ _ Hl).
Qed.

(** The stub endpoint of the scenario: two records, "The " and
    " answer.", and a blank line between them. *)
Definition record_line (fragment : string) : list Byte.byte :=
  list_byte_of_string "{" ++ [x22] ++ list_byte_of_string "response"
    ++ [x22] ++ list_byte_of_string ":" ++ [x22] ++ list_byte_of_string fragment
    ++ [x22] ++ list_byte_of_string "}".

Definition stub_response : response :=
  {| status_code := 200; text := Return [];
     lines := [record_line "The "; []; record_line " answer."];
     lines_end := None |}.

Definition stub : endpoint := λ _, PostReturns stub_response.

Lemma stream_yields_the_fragments_witness :
  ask_ollama_stream stub (lit "What is X?") (lit "X is 1.")
    = ([JStr (lit "The "); JStr (lit " answer.")], None)
  ∧ App.write_stream [JStr (lit "The "); JStr (lit " answer.")]
    = JStr (lit "The  answer.").
Proof.
  apply (stream_yields_the_fragments stub (lit "What is X?") (lit "X is 1.")
           stub_response [lit "The "; lit " answer."]);
    try reflexivity.
  repeat constructor; eexists _, _; (split; [reflexivity|]);
    (split; [reflexivity|]); by left.
Defined.


(** A response that starts well and then sends a line that is no JSON. *)
Definition garbled_response : response :=
  {| status_code := 200; text := Return [];
     lines := [record_line "The "; list_byte_of_string "<html>"; record_line " answer."];
     lines_end := None |}.

Definition garbled : endpoint := λ _, PostReturns garbled_response.

(** X1.  Whatever the endpoint does, no exception leaves the generator:
    it ends normally, and when anything was raised inside the [try],
    also after fragments were yielded, what it yielded last is one
    fragment that starts with the cross mark.  With the garbled stream,
    the first fragment is followed by the marked one and the rest of the
    stream is not read. *)
Theorem generator_always_ends (post : endpoint) (question context : str) :
  (∃ ys, ask_ollama_stream post question context = (ys, None)
         ∧ ∀ ys0 e, attempt post question context = (ys0, Some e) →
             ∃ detail, ys = ys0 ++ [JStr (CROSS_MARK :: detail)])
  ∧ ask_ollama_stream garbled question context
    = ([JStr (lit "The ");
        JStr (unexpected (Exn JSONDecodeError (lit "Expecting value")))], None).
Proof.
  split; [|reflexivity].
  rewrite ask_ollama_stream_unfold.
  destruct (attempt post question context) as [ys [e|]].
  - destruct (failure_fragment_marked e) as [detail Hd]. eexists. split; [reflexivity|].
    intros ys0 e0 [= <- <-]. exists detail. by rewrite Hd.
  - eexists. split; [reflexivity|]. intros ys0 e0 [=].
Qed.

(** What the three [except] clauses say, written out from the source:
    the fragment for an exception, by its class. *)
Definition failure_text (e : exn) : str :=
  CROSS_MARK ::
    match class_of e with
    | ReadTimeout =>
        lit " Ollama connection timed out. The model may be taking too long to load. Please try again."
    | ConnectionError | ConnectTimeout | SSLError | ProxyError =>
        lit " Failed to connect to Ollama. Is it running? Error: " ++ message e
    | _ => lit " An unexpected error occurred: " ++ message e
    end.

Lemma failure_fragment_text e : failure_fragment e = failure_text e.
Proof. by destruct e as [[] msg]. Qed.

Lemma stream_lines_carried ls ending fragments :
  Forall2 carries (nonblank ls) fragments →
  stream_lines ls ending = (map JStr fragments, ending).
Proof.
  revert fragments. induction ls as [|line rest IH]; intros fragments H.
  - apply Forall2_nil_inv_l in H as ->. reflexivity.
  - destruct line as [|b line].
    + cbn [nonblank] in H. cbn [stream_lines]. by apply IH.
    + cbn [nonblank] in H.
      apply Forall2_cons_inv_l in H as (fragment & fragments' & Hc & H & ->).
      cbn [stream_lines]. rewrite (chunk_fragment_carries _ _ Hc).
      by rewrite (IH _ H).
Qed.

(** A response that starts well and then stalls: after the first record
    no byte comes within the timeout, which [iter_lines] reports as a
    [ConnectionError]. *)
Definition stalling_response : response :=
  {| status_code := 200; text := Return [];
     lines := [record_line "The "];
     lines_end := Some (Exn ConnectionError (lit "Read timed out.")) |}.

Definition stalling : endpoint := λ _, PostReturns stalling_response.

(** C1, the claim as stated fails when the wait bound elapses while the
    lines of a response are read: the fragment of the first record was
    yielded already, so the generator yields two fragments, not a single
    one. *)
Lemma timeout_after_a_fragment :
  ask_ollama_stream stalling (lit "What is X?") (lit "X is 1.")
  = ([JStr (lit "The ");
      JStr (CROSS_MARK
              :: lit " Failed to connect to Ollama. Is it running? Error: Read timed out.")],
     None)
  ∧ ∀ fragment,
      ask_ollama_stream stalling (lit "What is X?") (lit "X is 1.") ≠ ([fragment], None).
Proof. split; [reflexivity|]. intros fragment. discriminate. Qed.

(** C1, as amended.  For every question and context no exception leaves
    the generator, and a failure shows as one fragment that starts with
    the cross mark and says what failed.  That fragment is the only one
    when [requests.post] raises (no connection, no answer within the
    timeout) and when the status of the answer is not 200.  When the
    failure comes while the lines of a 200 answer are read, the
    fragments of the records read so far come first and the marked
    fragment is the last. *)
Theorem failure_ends_in_one_marked_fragment (post : endpoint) (question context : str) :
  (∃ fragments, ask_ollama_stream post question context = (fragments, None))
  ∧ (∀ e, post (make_request question context) = PostRaises e →
       ask_ollama_stream post question context = ([JStr (failure_text e)], None))
  ∧ (∀ r, post (make_request question context) = PostReturns r →
       status_code r ≠ 200%Z →
       ask_ollama_stream post question context
       = ([JStr match text r with
                | Return body =>
                    CROSS_MARK :: lit " Ollama Error " ++ Json.int_repr (status_code r)
                      ++ lit ": " ++ body
                | Raise e => failure_text e
                end], None))
  ∧ (∀ r fragments e, post (make_request question context) = PostReturns r →
       status_code r = 200%Z →
       Forall2 carries (nonblank (lines r)) fragments →
       lines_end r = Some e →
       ask_ollama_stream post question context
       = (map JStr fragments ++ [JStr (failure_text e)], None)).
Proof.
  split; [apply ask_ollama_stream_returns|]. split; [|split].
  - intros e H. rewrite ask_ollama_stream_unfold. unfold attempt. rewrite H.
    by rewrite failure_fragment_text.
  - intros r H Hs. apply Z.eqb_neq in Hs.
    rewrite ask_ollama_stream_unfold. unfold attempt. rewrite H, Hs.
    destruct (text r) as [body|e]; [reflexivity|].
    by rewrite failure_fragment_text.
  - intros r fragments e H Hs Hl He.
    rewrite ask_ollama_stream_unfold. unfold attempt. rewrite H, Hs, He.
    cbn [Z.eqb Pos.eqb]. rewrite (stream_lines_carried _ _ _ Hl).
    by rewrite failure_fragment_text.
Qed.

(** The three cases at work: the endpoint that cannot be reached, the
    one that answers 500, and the one that stalls after a record. *)
Lemma failure_ends_in_one_marked_fragment_witness :
  ask_ollama_stream unreachable (lit "What is X?") (lit "X is 1.")
  = ([JStr (CROSS_MARK
              :: lit " Failed to connect to Ollama. Is it running? Error: Connection refused")],
     None)
  ∧ ask_ollama_stream broken (lit "What is X?") (lit "X is 1.")
    = ([JStr (CROSS_MARK :: lit " Ollama Error 500: model not found")], None)
  ∧ ask_ollama_stream stalling (lit "What is X?") (lit "X is 1.")
    = ([JStr (lit "The ");
        JStr (CROSS_MARK
                :: lit " Failed to connect to Ollama. Is it running? Error: Read timed out.")],
       None).
Proof.
  destruct (failure_ends_in_one_marked_fragment unreachable (lit "What is X?")
              (lit "X is 1.")) as (_ & H1 & _ & _).
  destruct (failure_ends_in_one_marked_fragment broken (lit "What is X?")
              (lit "X is 1.")) as (_ & _ & H2 & _).
  destruct (failure_ends_in_one_marked_fragment stalling (lit "What is X?")
              (lit "X is 1.")) as (_ & _ & _ & H3).
  split; [|split].
  - exact (H1 _ eq_refl).
  - refine (H2 _ eq_refl _). discriminate.
  - refine (H3 stalling_response [lit "The "] _ eq_refl eq_refl _ eq_refl).
    repeat constructor. eexists _, _. split; [reflexivity|].
    split; [reflexivity | by left].
Defined.

End ClientFacts.

(** ** The page script *)

Module AppFacts.
Import Client App ClientFacts HistoryFacts.

(** [st.write_stream] returns a string or a list, so the test for the
    cross mark does not raise. *)
Lemma write_stream_contains chunks needle :
  ∃ found, py_contains (write_stream chunks) needle = Return found.
Proof.
  unfold write_stream.
  destruct (write_stream_loop chunks [] []) as [|x [|y l]];
    [eexists; reflexivity| |destruct x; eexists; reflexivity].
  destruct x; eexists; reflexivity.
Qed.

(** The world once the question is in the transcript and on the page. *)
Definition asked (question : str) (ms : list json) (w : world) : world :=
  log (ChatMessage (lit "user") (JStr question))
    (set_session (set_messages (JArr (ms ++ [user_message question])) (session w)) w).

(** The world once the answer is on the page. *)
Definition shown (answer : json) (w : world) : world :=
  log (ChatMessage (lit "assistant") answer) w.

(** The world once the answer is in the transcript. *)
Definition answered (question : str) (answer : json) (ms : list json) (w : world)
  : world :=
  set_session
    (set_messages (JArr (ms ++ [user_message question; assistant_message answer]))
       (session w))
    (shown answer (asked question ms w)).

(** The chat input handler, step by step, when a document is loaded and
    the transcript is a list. *)
Lemma chat_input_unfold post question w ms chunks failed :
  context (session w) ≠ [] →
  messages (session w) = JArr ms →
  ask_ollama_stream post question (context (session w)) = (chunks, None) →
  py_contains (write_stream chunks) [CROSS_MARK] = Return failed →
  chat_input post question w
  = (Return tt,
     if failed then shown (write_stream chunks) (asked question ms w)
     else saved (current_user (session w))
            (JArr (ms ++ [user_message question;
                          assistant_message (write_stream chunks)]))
            (answered question (write_stream chunks) ms w)).
Proof.
  intros Hctx Hms Hask Hfailed. unfold chat_input, bind, get_session at 1.
  destruct (context (session w)) as [|c ctx] eqn:Ec; [done|]. cbn [is_empty].
  rewrite Hms. unfold lift at 1. cbn [py_append].
  unfold put_session at 1, modify at 1, modify at 1, get_session at 1.
  cbn [session set_session log context set_messages].
  rewrite Ec, Hask.
  unfold modify at 1, lift at 1. rewrite Hfailed.
  destruct failed; cbn [negb].
  - reflexivity.
  - unfold get_session at 1, lift at 1.
    cbn [session set_session log messages set_messages py_append].
    rewrite <- app_assoc. reflexivity.
Qed.


(** [needle in s] for a needle of one character. *)
Lemma is_substring_char c s : is_substring [c] s = true ↔ c ∈ s.
Proof.
  induction s as [|b s IH]; cbn [is_substring is_prefix].
  - split; [discriminate|]. by intros ?%elem_of_nil.
  - rewrite orb_true_iff, andb_true_r, N.eqb_eq, IH, elem_of_cons. done.
Qed.

(** A session of [alice] with a document loaded and nothing said yet. *)
Definition alice_session : session_state :=
  {| authenticated := true; current_user := alice; messages := JArr [];
     context := lit "X is 1." |}.

Definition alice_world : world := set_session alice_session empty_world.

(** A record whose ["response"] is the number 5, not a text. *)
Definition number_line : list Byte.byte :=
  list_byte_of_string "{" ++ [x22] ++ list_byte_of_string "response"
    ++ [x22] ++ list_byte_of_string ": 5}".

(** A response whose first record carries a number and whose second line
    is no JSON. *)
Definition number_then_garbage : endpoint :=
  λ _, PostReturns {| status_code := 200; text := Return [];
                      lines := [number_line; list_byte_of_string "<html>"];
                      lines_end := None |}.

(** C2, where the code departs from it.  The handler tests
    ["❌" not in full_response], and [st.write_stream] returns a list,
    not a string, as soon as one fragment is not text; on a list the test
    looks for an item equal to the mark, not for the mark inside the
    items.  With the response above the answer is the list of the number
    and the marked fragment of the failure; the test finds no mark, and
    the marked answer is appended to the transcript and written to the
    record. *)
Lemma marked_answer_is_saved :
  ∃ detail w',
    let answer := JArr [JInt 5;
                        JStr (CROSS_MARK :: lit " An unexpected error occurred: "
                                ++ detail)] in
    let transcript :=
      JArr [JObj [(lit "role", JStr (lit "user"));
                  (lit "content", JStr (lit "What is X?"))];
            JObj [(lit "role", JStr (lit "assistant")); (lit "content", answer)]] in
    ask_ollama_stream number_then_garbage (lit "What is X?") (lit "X is 1.")
    = ([JInt 5;
        JStr (CROSS_MARK :: lit " An unexpected error occurred: " ++ detail)], None)
    ∧ chat_input number_then_garbage (lit "What is X?") alice_world = (Return tt, w')
    ∧ messages (session w') = transcript
    ∧ files w' !! history_path alice = Some (Json.dumps transcript)
    ∧ trace w'
      = [ChatMessage (lit "user") (JStr (lit "What is X?"));
         ChatMessage (lit "assistant") answer;
         Wrote (history_path alice) (Json.dumps transcript)].
Proof.
  exists (lit "Expecting value"). eexists. cbv zeta.
  split; [reflexivity|]. split.
  { apply (chat_input_unfold number_then_garbage (lit "What is X?") alice_world []
             [JInt 5;
              JStr (CROSS_MARK :: lit " An unexpected error occurred: Expecting value")]
             false); [discriminate | reflexivity | reflexivity | reflexivity]. }
  split; [reflexivity|]. split; [|reflexivity].
  cbn [files saved]. apply lookup_insert_eq.
Qed.

(** X18.  When every fragment of the answer is text, which is what the
    generator yields for a stream of well-formed records and for each of
    its own failure fragments, the handler does what the comment in the
    source says.  The user message is appended and both messages are
    shown; the assistant message, whose content is the fragments put
    together, is appended and the transcript written to the record of
    the user exactly when that text does not contain the cross mark. *)
Theorem text_answer_is_saved_unless_marked (post : endpoint) (question : str)
    (w : world) (ms : list json) (fragments : list str) :
  context (session w) ≠ [] →
  messages (session w) = JArr ms →
  ask_ollama_stream post question (context (session w)) = (map JStr fragments, None) →
  let answer := concat fragments in
  let user := current_user (session w) in
  let asked := JObj [(lit "role", JStr (lit "user")); (lit "content", JStr question)] in
  let reply := JObj [(lit "role", JStr (lit "assistant")); (lit "content", JStr answer)] in
  ∃ w', chat_input post question w = (Return tt, w')
        ∧ (CROSS_MARK ∈ answer →
             messages (session w') = JArr (ms ++ [asked])
             ∧ files w' = files w
             ∧ trace w'
               = trace w ++ [ChatMessage (lit "user") (JStr question);
                             ChatMessage (lit "assistant") (JStr answer)])
        ∧ (CROSS_MARK ∉ answer →
             messages (session w') = JArr (ms ++ [asked; reply])
             ∧ files w'
               = <[history_path user := Json.dumps (JArr (ms ++ [asked; reply]))]> (files w)
             ∧ trace w'
               = trace w ++ [ChatMessage (lit "user") (JStr question);
                             ChatMessage (lit "assistant") (JStr answer);
                             Wrote (history_path user)
                               (Json.dumps (JArr (ms ++ [asked; reply])))]).
Proof.
  intros Hctx Hms Hask answer user asked' reply.
  pose proof (chat_input_unfold post question w ms (map JStr fragments)
                (is_substring [CROSS_MARK] (concat fragments)) Hctx Hms Hask) as H.
  rewrite write_stream_text in H. specialize (H eq_refl).
  eexists. split; [exact H|].
  fold answer. split.
  - intros Hin. apply is_substring_char in Hin. rewrite Hin.
    split; [reflexivity|]. split; [reflexivity|].
    cbn [trace shown asked log]. by rewrite <- app_assoc.
  - intros Hout.
    assert (is_substring [CROSS_MARK] answer = false) as ->.
    { apply not_true_is_false. by rewrite is_substring_char. }
    split; [reflexivity|]. split; [reflexivity|].
    cbn [trace saved answered shown asked log set_session]. by rewrite <- !app_assoc.
Qed.

Lemma text_answer_is_saved_unless_marked_witness :
  (∃ w', chat_input stub (lit "What is X?") alice_world = (Return tt, w')
         ∧ messages (session w')
           = JArr [JObj [(lit "role", JStr (lit "user"));
                         (lit "content", JStr (lit "What is X?"))];
                   JObj [(lit "role", JStr (lit "assistant"));
                         (lit "content", JStr (lit "The  answer."))]]
         ∧ files w' !! history_path alice = Some (Json.dumps (messages (session w'))))
  ∧ (∃ w', chat_input unreachable (lit "What is X?") alice_world = (Return tt, w')
           ∧ messages (session w')
             = JArr [JObj [(lit "role", JStr (lit "user"));
                           (lit "content", JStr (lit "What is X?"))]]
           ∧ files w' = files alice_world).
Proof.
  split.
  - destruct (text_answer_is_saved_unless_marked stub (lit "What is X?") alice_world []
                [lit "The "; lit " answer."]) as (w' & Hrun & _ & Hok);
      [discriminate | reflexivity | reflexivity|].
    destruct Hok as (Hm & Hf & _).
    { intros Hin. vm_compute in Hin.
      repeat (apply elem_of_cons in Hin as [Hin|Hin]; [discriminate|]).
      by apply elem_of_nil in Hin. }
    exists w'. split; [exact Hrun|]. split; [exact Hm|].
    rewrite Hf, Hm. apply lookup_insert_eq.
  - destruct (text_answer_is_saved_unless_marked unreachable (lit "What is X?")
                alice_world []
                [failed_to_connect (Exn ConnectionError (lit "Connection refused"))])
      as (w' & Hrun & Hfail & _); [discriminate | reflexivity | reflexivity|].
    destruct Hfail as (Hm & Hf & _); [apply elem_of_cons; by left|].
    exists w'. by split.
Defined.

(** The world after the logout button. *)
Lemma logout_button_unfold w :
  logout_button w
  = (Return tt,
     log Rerun (set_session initial_session
                  (saved (current_user (session w)) (messages (session w)) w))).
Proof. reflexivity. Qed.

(** The world after the button that clears the history. *)
Lemma clear_button_unfold w :
  clear_button w
  = (Return tt,
     log Rerun (saved (current_user (session w)) (JArr [])
                  (set_session (set_messages (JArr []) (session w)) w))).
Proof. reflexivity. Qed.

(** C9, the claim as stated fails for the clear button: it empties the
    transcript before it saves.  [alice] asks while the endpoint cannot be
    reached, so her question stays in the transcript without an answer;
    she clears the history; the record then written is the empty list,
    and loading it gives no message at all. *)
Lemma clear_drops_the_unanswered_question :
  ∃ w1 w2,
    chat_input unreachable (lit "What is X?") alice_world = (Return tt, w1)
    ∧ messages (session w1) = JArr [user_message (lit "What is X?")]
    ∧ files w1 !! history_path alice = None
    ∧ clear_button w1 = (Return tt, w2)
    ∧ files w2 !! history_path alice = Some (lit "[]")
    ∧ load_history alice w2 = (Return (JArr []), w2).
Proof.
  exists (shown (JStr (failed_to_connect (Exn ConnectionError (lit "Connection refused"))))
            (asked (lit "What is X?") [] alice_world)).
  eexists. split.
  { apply (chat_input_unfold unreachable (lit "What is X?") alice_world []
             [JStr (failed_to_connect (Exn ConnectionError (lit "Connection refused")))]
             true); [discriminate | reflexivity | reflexivity | reflexivity]. }
  split; [reflexivity|]. split; [apply lookup_empty|].
  rewrite clear_button_unfold. split; [reflexivity|].
  split; [apply lookup_insert_eq|].
  rewrite load_history_unfold.
  cbn [files log saved set_session current_user session].
  by rewrite lookup_insert_eq.
Qed.

(** C9, as amended.  When an exchange fails, the user message stays in
    the transcript in memory and nothing is written.  A logout after it
    writes the transcript with that question as its last message, and so
    does the next exchange that succeeds, with the question before the
    new question and its answer.  The button that clears the history
    empties the transcript first: what it writes is the empty list. *)
Theorem unanswered_question_is_kept (post : endpoint) (question : str) (w : world)
    (ms : list json) (chunks : list json) :
  authenticated (session w) = true →
  context (session w) ≠ [] →
  messages (session w) = JArr ms →
  ask_ollama_stream post question (context (session w)) = (chunks, None) →
  py_contains (write_stream chunks) [CROSS_MARK] = Return true →
  let user := current_user (session w) in
  let kept := JArr (ms ++ [user_message question]) in
  ∃ w1,
    chat_input post question w = (Return tt, w1)
    ∧ messages (session w1) = kept
    ∧ files w1 = files w
    ∧ (∃ w2, logout_button w1 = (Return tt, w2)
             ∧ files w2 !! history_path user = Some (Json.dumps kept)
             ∧ (JsonFacts.stable kept = true →
                  load_history user w2 = (Return kept, w2)))
    ∧ (∀ post' question' chunks',
         ask_ollama_stream post' question' (context (session w)) = (chunks', None) →
         py_contains (write_stream chunks') [CROSS_MARK] = Return false →
         ∃ w2, chat_input post' question' w1 = (Return tt, w2)
               ∧ files w2 !! history_path user
                 = Some (Json.dumps
                           (JArr (ms ++ [user_message question;
                                         user_message question';
                                         assistant_message (write_stream chunks')]))))
    ∧ (∃ w2, clear_button w1 = (Return tt, w2)
             ∧ messages (session w2) = JArr []
             ∧ files w2 !! history_path user = Some (Json.dumps (JArr []))
             ∧ load_history user w2 = (Return (JArr []), w2)).
Proof.
  intros _ Hctx Hms Hask Hfailed user kept.
  exists (shown (write_stream chunks) (asked question ms w)).
  split; [by rewrite (chat_input_unfold _ _ _ _ _ _ Hctx Hms Hask Hfailed)|].
  split; [reflexivity|]. split; [reflexivity|].
  split; [|split].
  - eexists. split; [apply logout_button_unfold|]. split.
    + cbn [files log set_session saved session shown asked current_user
           set_messages messages].
      apply lookup_insert_eq.
    + intros Hst. rewrite load_history_unfold.
      cbn [files log set_session saved session shown asked current_user
           set_messages messages].
      rewrite lookup_insert_eq. fold kept. by rewrite JsonFacts.loads_dumps.
  - intros post' question' chunks' Hask' Hok. eexists. split.
    + apply (chat_input_unfold post' question'
               (shown (write_stream chunks) (asked question ms w))
               (ms ++ [user_message question]) chunks' false); try done.
    + cbn [files log set_session saved session shown asked current_user
           set_messages messages].
      rewrite <- app_assoc. apply lookup_insert_eq.
  - eexists. split; [apply clear_button_unfold|]. split; [reflexivity|]. split.
    + cbn [files log set_session saved session shown asked current_user
           set_messages messages].
      apply lookup_insert_eq.
    + rewrite load_history_unfold.
      cbn [files log set_session saved session shown asked current_user
           set_messages messages].
      by rewrite lookup_insert_eq.
Qed.


Lemma unanswered_question_is_kept_witness :
  ∃ w1,
    chat_input unreachable (lit "What is X?") alice_world = (Return tt, w1)
    ∧ messages (session w1) = JArr ([] ++ [user_message (lit "What is X?")])
    ∧ files w1 = files alice_world
    ∧ (∃ w2, logout_button w1 = (Return tt, w2)
             ∧ files w2 !! history_path (current_user (session alice_world))
               = Some (Json.dumps (JArr ([] ++ [user_message (lit "What is X?")])))
             ∧ (JsonFacts.stable (JArr ([] ++ [user_message (lit "What is X?")])) = true →
                  load_history (current_user (session alice_world)) w2
                  = (Return (JArr ([] ++ [user_message (lit "What is X?")])), w2)))
    ∧ (∀ post' question' chunks',
         ask_ollama_stream post' question' (context (session alice_world))
           = (chunks', None) →
         py_contains (write_stream chunks') [CROSS_MARK] = Return false →
         ∃ w2, chat_input post' question' w1 = (Return tt, w2)
               ∧ files w2 !! history_path (current_user (session alice_world))
                 = Some (Json.dumps
                           (JArr ([] ++ [user_message (lit "What is X?");
                                         user_message question';
                                         assistant_message (write_stream chunks')]))))
    ∧ (∃ w2, clear_button w1 = (Return tt, w2)
             ∧ messages (session w2) = JArr []
             ∧ files w2 !! history_path (current_user (session alice_world))
               = Some (Json.dumps (JArr []))
             ∧ load_history (current_user (session alice_world)) w2
               = (Return (JArr []), w2)).
Proof.
  apply (unanswered_question_is_kept unreachable (lit "What is X?") alice_world []
           [JStr (failed_to_connect (Exn ConnectionError (lit "Connection refused")))]).
  - reflexivity.
  - discriminate.
  - reflexivity.
  - reflexivity.
  - reflexivity.
Defined.




End AppFacts.

(** ** The word wrap *)

Module ReportFacts.
Import Report.

(** The whitespace [lstrip] removes. *)
Fixpoint leading_space (s : str) : str :=
  match s with
  | c :: r => if is_space c then c :: leading_space r else []
  | [] => []
  end.

(** [p] is where the loop breaks [line]: the last space among the first
    [WIDTH] characters, or [WIDTH] when there is none. *)
Definition break_at (line : str) (p : nat) : Prop :=
  (p < WIDTH ∧ line !! p = Some SPACE
     ∧ ∀ j, p < j < WIDTH → line !! j ≠ Some SPACE)
  ∨ (p = WIDTH ∧ ∀ j, j < WIDTH → line !! j ≠ Some SPACE).

(** The produced lines put back together, with [gaps] between them. *)
Fixpoint rejoin (lines gaps : list str) : str :=
  match lines with
  | [] => []
  | l :: ls =>
      match gaps with
      | g :: gs => l ++ g ++ rejoin ls gs
      | [] => l ++ rejoin ls []
      end
  end.

Definition all_space (s : str) : Prop := Forall (λ c, is_space c = true) s.

Lemma wrap_line_short line : length line ≤ WIDTH → wrap_line line = [line].
Proof.
  intros H. rewrite wrap_line_equation_1.
  destruct (le_lt_dec (length line) WIDTH); [reflexivity | lia].
Qed.

Lemma wrap_line_long line :
  WIDTH < length line →
  wrap_line line =
    slice_to line (split_pos line)
      :: wrap_line (lstrip (slice_from line (split_pos line))).
Proof.
  intros H. rewrite wrap_line_equation_1.
  destruct (le_lt_dec (length line) WIDTH); [lia | reflexivity].
Qed.

Lemma leading_space_lstrip s : leading_space s ++ lstrip s = s.
Proof.
  induction s as [|c r IH]; simpl; [reflexivity|].
  destruct (is_space c); simpl; [by rewrite IH | reflexivity].
Qed.

Lemma leading_space_all_space s : all_space (leading_space s).
Proof.
  induction s as [|c r IH]; simpl; [constructor|].
  destruct (is_space c) eqn:E; by constructor.
Qed.

Lemma last_index_None c s j : last_index c s = None → s !! j ≠ Some c.
Proof.
  revert j. induction s as [|x r IH]; intros j; simpl; [by destruct j|].
  destruct (last_index c r) as [i|]; [discriminate|].
  destruct (x =? c)%N eqn:E; [discriminate|]. intros _.
  destruct j as [|j]; simpl.
  - intros [= ->]. by rewrite N.eqb_refl in E.
  - by apply IH.
Qed.

Lemma last_index_last c s i j :
  last_index c s = Some i → i < j → s !! j ≠ Some c.
Proof.
  revert i j. induction s as [|x r IH]; intros i j; simpl; [discriminate|].
  destruct (last_index c r) as [k|] eqn:E.
  - intros [= <-] Hj. destruct j as [|j]; [lia|]. simpl. apply (IH k); [done | lia].
  - destruct (x =? c)%N; [|discriminate]. intros [= <-] Hj.
    destruct j as [|j]; [lia|]. simpl. by apply last_index_None.
Qed.

Lemma split_pos_break line :
  ∃ p, split_pos line = Z.of_nat p ∧ break_at line p.
Proof.
  unfold split_pos, rfind. rewrite drop_0, Nat.sub_0_r.
  destruct (last_index SPACE (take WIDTH line)) as [i|] eqn:E.
  - pose proof (last_index_lt _ _ _ E) as Hi.
    pose proof (last_index_char _ _ _ E) as Hc.
    rewrite length_take in Hi.
    rewrite lookup_take_lt in Hc by lia.
    exists i. split.
    + cbv zeta. replace (Z.of_nat (0 + i) =? -1)%Z with false
        by (symmetry; apply Z.eqb_neq; lia).
      reflexivity.
    + left. split; [lia|]. split; [done|].
      intros j [Hj1 Hj2]. rewrite <- (lookup_take_lt line WIDTH j) by done.
      by apply (last_index_last _ _ i).
  - exists WIDTH. split; [reflexivity|]. right. split; [reflexivity|].
    intros j Hj. rewrite <- (lookup_take_lt line WIDTH j) by done.
    by apply last_index_None.
Qed.

Lemma break_at_le line p : break_at line p → p ≤ WIDTH.
Proof. intros [[H _]|[-> _]]; lia. Qed.

Lemma slice_to_nat (s : str) p : slice_to s (Z.of_nat p) = take p s.
Proof.
  unfold slice_to, slice_bound.
  replace (Z.of_nat p <? 0)%Z with false by (symmetry; apply Z.ltb_ge; lia).
  by rewrite Nat2Z.id.
Qed.

Lemma slice_from_nat (s : str) p : slice_from s (Z.of_nat p) = drop p s.
Proof.
  unfold slice_from, slice_bound.
  replace (Z.of_nat p <? 0)%Z with false by (symmetry; apply Z.ltb_ge; lia).
  by rewrite Nat2Z.id.
Qed.

(** The break position as a natural number. *)
Definition break_pos (line : str) : nat := Z.to_nat (split_pos line).

Lemma split_pos_break_pos line : split_pos line = Z.of_nat (break_pos line).
Proof.
  unfold break_pos. destruct (split_pos_break line) as (p & -> & _).
  by rewrite Nat2Z.id.
Qed.

Lemma break_at_break_pos line : break_at line (break_pos line).
Proof.
  unfold break_pos. destruct (split_pos_break line) as (p & -> & H).
  by rewrite Nat2Z.id.
Qed.

Lemma wrap_line_break line :
  WIDTH < length line →
  wrap_line line =
    take (break_pos line) line :: wrap_line (lstrip (drop (break_pos line) line)).
Proof.
  intros H. rewrite (wrap_line_long _ H), split_pos_break_pos.
  by rewrite slice_to_nat, slice_from_nat.
Qed.

(** Induction along the turns of the loop. *)
Lemma wrap_line_loop_ind (P : str → Prop) :
  (∀ line, length line ≤ WIDTH → P line) →
  (∀ line, WIDTH < length line →
     P (lstrip (drop (break_pos line) line)) → P line) →
  ∀ line, P line.
Proof.
  intros Hshort Hlong line.
  remember (length line) as n eqn:Hn. revert line Hn.
  induction n as [n IH] using lt_wf_ind. intros line ->.
  destruct (le_lt_dec (length line) WIDTH) as [Hs|Hl]; [by apply Hshort|].
  apply Hlong; [done|].
  apply (IH (length (lstrip (drop (break_pos line) line)))); [|reflexivity].
  pose proof (wrap_progress line Hl) as Hw.
  by rewrite split_pos_break_pos, slice_from_nat in Hw.
Qed.

Lemma wrap_line_widths line : Forall (λ l, length l ≤ WIDTH) (wrap_line line).
Proof.
  induction line as [line Hs|line Hl IH] using wrap_line_loop_ind.
  - rewrite wrap_line_short by done. constructor; [done | constructor].
  - rewrite wrap_line_break by done. constructor; [|done].
    rewrite length_take. pose proof (break_at_le _ _ (break_at_break_pos line)). lia.
Qed.

(** What was cut out at the breaks is whitespace, and nothing else is
    lost: with the right gaps the produced lines give back the line. *)
Lemma wrap_line_rejoin line :
  ∃ gaps, length (wrap_line line) = S (length gaps)
          ∧ Forall all_space gaps
          ∧ rejoin (wrap_line line) gaps = line.
Proof.
  induction line as [line Hs|line Hl IH] using wrap_line_loop_ind.
  - exists []. rewrite wrap_line_short by done. simpl.
    split; [done|]. split; [constructor|]. by rewrite app_nil_r.
  - destruct IH as (gaps & Hlen & Hsp & Hre).
    exists (leading_space (drop (break_pos line) line) :: gaps).
    rewrite wrap_line_break by done. simpl. split; [by rewrite Hlen|].
    split; [constructor; [apply leading_space_all_space | done]|].
    by rewrite Hre, leading_space_lstrip, take_drop.
Qed.

(** Two lines of 92 and 91 characters that differ only in the number of
    spaces at the break. *)
Definition line_two_spaces : str := repeat 97%N 89 ++ [SPACE; SPACE; 98%N].
Definition line_one_space : str := repeat 97%N 89 ++ [SPACE; 98%N].

(** C7, the claim as stated fails: the wrap does not keep what [lstrip]
    removes, so the produced lines do not determine the line.  The two
    sample lines are different and are wrapped into the same two lines;
    neither plain concatenation nor putting one space back at the break
    gives the first of them back, and no rejoining function can. *)
Lemma wrap_line_forgets_spaces :
  line_two_spaces ≠ line_one_space
  ∧ wrap_line line_two_spaces = [repeat 97%N 89; [98%N]]
  ∧ wrap_line line_one_space = [repeat 97%N 89; [98%N]]
  ∧ concat (wrap_line line_two_spaces) ≠ line_two_spaces
  ∧ rejoin (wrap_line line_two_spaces) [[SPACE]] ≠ line_two_spaces
  ∧ ¬ (∃ undo : list str → str, ∀ line, undo (wrap_line line) = line).
Proof.
  assert (line_two_spaces ≠ line_one_space) as Hne by (vm_compute; discriminate).
  assert (wrap_line line_two_spaces = [repeat 97%N 89; [98%N]]) as H2
    by (vm_compute; reflexivity).
  assert (wrap_line line_one_space = [repeat 97%N 89; [98%N]]) as H1
    by (vm_compute; reflexivity).
  split; [exact Hne|]. split; [exact H2|]. split; [exact H1|].
  rewrite H2. split; [vm_compute; discriminate|].
  split; [vm_compute; discriminate|].
  - intros [undo Hundo]. apply Hne.
    rewrite <- (Hundo line_two_spaces), <- (Hundo line_one_space).
    by rewrite H1, H2.
Qed.

(** C7, as amended.  A line of at most 90 characters is produced as it
    is.  A longer line is broken at the last space among its first 90
    characters when there is one, and after exactly 90 characters
    otherwise; the loop goes on with what follows the break, stripped of
    its leading whitespace.  Every produced line has at most 90
    characters, and the line is reconstructed from the produced lines by
    putting back, between consecutive lines, a run of whitespace (the
    one that was stripped at that break, possibly empty). *)
Theorem wrap_line_spec (line : str) :
  (length line ≤ WIDTH → wrap_line line = [line])
  ∧ (WIDTH < length line →
       break_at line (break_pos line)
       ∧ wrap_line line =
           take (break_pos line) line
             :: wrap_line (lstrip (drop (break_pos line) line)))
  ∧ Forall (λ l, length l ≤ WIDTH) (wrap_line line)
  ∧ ∃ gaps, length (wrap_line line) = S (length gaps)
            ∧ Forall all_space gaps
            ∧ rejoin (wrap_line line) gaps = line.
Proof.
  split; [apply wrap_line_short|].
  split; [intros H; split; [apply break_at_break_pos | by apply wrap_line_break]|].
  split; [apply wrap_line_widths | apply wrap_line_rejoin].
Qed.

End ReportFacts.

(** ** The lines of the report *)

Module RenderFacts.
Import Report ReportFacts Render.

(** What is left of a string without its white space. *)
Definition ink (s : str) : str := List.filter (λ c, negb (is_space c)) s.

Lemma ink_app s t : ink (s ++ t) = ink s ++ ink t.
Proof. apply List.filter_app. Qed.

Lemma ink_lstrip s : ink (lstrip s) = ink s.
Proof.
  induction s as [|c s IH]; [reflexivity|]. cbn [lstrip].
  destruct (is_space c) eqn:E; [|reflexivity].
  rewrite IH. unfold ink. cbn [List.filter]. by rewrite E.
Qed.

Lemma Forall_lstrip (P : N → Prop) s : Forall P s → Forall P (lstrip s).
Proof.
  induction 1 as [|c s Hc Hs IH]; [constructor|]. cbn [lstrip].
  destruct (is_space c); [exact IH | by constructor].
Qed.

(** A produced line is made of characters of the line. *)
Lemma wrap_line_chars (P : N → Prop) line :
  Forall P line → Forall (Forall P) (wrap_line line).
Proof.
  induction line as [line Hs|line Hl IH] using wrap_line_loop_ind; intros H.
  - rewrite wrap_line_short by done. constructor; [done | constructor].
  - rewrite wrap_line_break by done. constructor.
    + by apply Forall_take.
    + by apply IH, Forall_lstrip, Forall_drop.
Qed.

(** The wrap loses white space only. *)
Lemma wrap_line_ink line : ink (concat (wrap_line line)) = ink line.
Proof.
  induction line as [line Hs|line Hl IH] using wrap_line_loop_ind.
  - rewrite wrap_line_short by done. cbn [concat]. by rewrite app_nil_r.
  - rewrite wrap_line_break by done. cbn [concat].
    rewrite ink_app, IH, ink_lstrip, <- ink_app. by rewrite take_drop.
Qed.

Lemma linebreak_is_space c : is_linebreak c = true → is_space c = true.
Proof.
  unfold is_linebreak, is_space, in_range.
  rewrite !orb_true_iff, !andb_true_iff, !N.leb_le, !N.eqb_eq. lia.
Qed.

Lemma ink_snoc_space s c : is_space c = true → ink (s ++ [c]) = ink s.
Proof.
  intros H. rewrite ink_app. unfold ink at 2. cbn [List.filter].
  rewrite H. apply app_nil_r.
Qed.

Definition no_linebreak (s : str) : Prop := Forall (λ c, is_linebreak c = false) s.

Lemma splitlines_from_spec cur s :
  no_linebreak cur →
  Forall no_linebreak (splitlines_from cur s)
  ∧ ink (concat (splitlines_from cur s)) = ink (cur ++ s).
Proof.
  enough (∀ n s, length s ≤ n → ∀ cur, no_linebreak cur →
            Forall no_linebreak (splitlines_from cur s)
            ∧ ink (concat (splitlines_from cur s)) = ink (cur ++ s)) as H
    by (by apply (H (length s))).
  clear. intros n. induction n as [n IHn] using lt_wf_ind. intros s Hn cur Hcur.
  assert (∀ t, length t < length s → ∀ cur, no_linebreak cur →
            Forall no_linebreak (splitlines_from cur t)
            ∧ ink (concat (splitlines_from cur t)) = ink (cur ++ t)) as IH.
  { intros t Ht. apply (IHn (length t)); lia. }
  clear IHn Hn.
  destruct s as [|c r].
  - cbn [splitlines_from]. destruct cur as [|x cur].
    + by split.
    + split; [constructor; [done | constructor]|]. cbn [concat]. by rewrite !app_nil_r.
  - assert (∀ t, length t ≤ length r →
              Forall no_linebreak (cur :: splitlines_from [] t)
              ∧ (is_space c = true → cur ++ c :: r = (cur ++ [c]) ++ r →
                 ink (concat (cur :: splitlines_from [] t)) = ink (cur ++ t))) as Hbreak.
    { intros t Ht. destruct (IH t ltac:(simpl; lia) [] ltac:(constructor)) as [H1 H2].
      split; [by constructor|]. intros _ _. cbn [concat].
      by rewrite !ink_app, H2. }
    cbn [splitlines_from].
    destruct (c =? 13)%N eqn:E13.
    + apply N.eqb_eq in E13 as ->.
      assert (∀ t, ink (cur ++ 13%N :: t) = ink (cur ++ t)) as Hcr.
      { intros t. by rewrite !ink_app. }
      destruct r as [|c' r'].
      * destruct (Hbreak [] ltac:(done)) as [H1 H2]. split; [exact H1|].
        rewrite Hcr. apply H2; [reflexivity | by rewrite <- app_assoc].
      * destruct (c' =? 10)%N eqn:E10.
        -- apply N.eqb_eq in E10 as ->.
           destruct (Hbreak r' ltac:(simpl; lia)) as [H1 H2]. split; [exact H1|].
           rewrite Hcr, (ink_app cur (10%N :: r')).
           change (ink (10%N :: r')) with (ink r'). rewrite <- ink_app.
           apply H2; [reflexivity | by rewrite <- app_assoc].
        -- destruct (Hbreak (c' :: r') ltac:(done)) as [H1 H2]. split; [exact H1|].
           rewrite Hcr. apply H2; [reflexivity | by rewrite <- app_assoc].
    + destruct (is_linebreak c) eqn:Elb.
      * destruct (Hbreak r ltac:(done)) as [H1 H2]. split; [exact H1|].
        pose proof (linebreak_is_space c Elb) as Hsp.
        rewrite (H2 Hsp) by (by rewrite <- app_assoc).
        rewrite !ink_app. f_equal. unfold ink at 2. cbn [List.filter].
        by rewrite Hsp.
      * destruct (IH r ltac:(simpl; lia) (cur ++ [c])) as [H1 H2].
        { apply Forall_app. split; [done | constructor; [done | constructor]]. }
        split; [exact H1|]. by rewrite H2, <- app_assoc.
Qed.


Lemma splitlines_spec s :
  Forall no_linebreak (splitlines s) ∧ ink (concat (splitlines s)) = ink s.
Proof. apply (splitlines_from_spec [] s). constructor. Qed.

Lemma wrapped_widths ls :
  Forall (λ l, length l ≤ WIDTH) (concat (map wrap_line ls)).
Proof.
  induction ls as [|l ls IH]; [constructor|]. cbn [map concat].
  apply Forall_app. split; [apply wrap_line_widths | exact IH].
Qed.

Lemma wrapped_no_linebreak ls :
  Forall no_linebreak ls → Forall no_linebreak (concat (map wrap_line ls)).
Proof.
  induction 1 as [|l ls Hl _ IH]; [constructor|]. cbn [map concat].
  apply Forall_app. split; [by apply wrap_line_chars | exact IH].
Qed.

Lemma wrapped_ink ls : ink (concat (concat (map wrap_line ls))) = ink (concat ls).
Proof.
  induction ls as [|l ls IH]; [reflexivity|]. cbn [map concat].
  by rewrite concat_app, !ink_app, wrap_line_ink, IH.
Qed.

(** A line of the report: at most [WIDTH] characters, none of them a
    line break. *)
Definition fits (l : str) : Prop := length l ≤ WIDTH ∧ no_linebreak l.

Section Formatting.
Variable py_str : json → str.

(** The text of a message before it is split and wrapped. *)
Definition full_line (r c : json) : str :=
  (if eq_str r (lit "user") then lit "You" else lit "Assistant")
    ++ lit ": " ++ format_value py_str c.

(** A message the loop can draw: a dict with a role and a content. *)
Definition drawable (msg : json) (r c : json) : Prop :=
  ∃ kvs, msg = JObj kvs
         ∧ dict_get kvs (lit "role") = Some r
         ∧ dict_get kvs (lit "content") = Some c.

Lemma message_lines_drawable msg r c :
  drawable msg r c →
  ∃ ls, message_lines py_str msg = Return (ls ++ [[]])
        ∧ Forall fits ls
        ∧ ink (concat ls) = ink (full_line r c).
Proof.
  intros (kvs & -> & Hr & Hc). unfold message_lines. cbn [py_getitem].
  rewrite Hr, Hc. fold (full_line r c).
  destruct (splitlines_spec (full_line r c)) as [Hnb Hink].
  eexists. split; [reflexivity|]. split.
  - apply Forall_forall. intros l Hl. split.
    + pose proof (wrapped_widths (splitlines (full_line r c))) as Hw.
      rewrite Forall_forall in Hw. by apply Hw.
    + pose proof (wrapped_no_linebreak _ Hnb) as Hn.
      rewrite Forall_forall in Hn. by apply Hn.
  - by rewrite wrapped_ink.
Qed.

(** The texts of the messages of a transcript, one after the other. *)
Inductive transcript_text : list json → str → Prop :=
| text_nil : transcript_text [] []
| text_cons msg r c msgs t :
    drawable msg r c → transcript_text msgs t →
    transcript_text (msg :: msgs) (full_line r c ++ t).

Lemma fits_blank : fits [].
Proof. split; [simpl; lia | constructor]. Qed.

(** An entry the loop cannot draw makes it raise. *)
Lemma message_lines_junk msg :
  (∀ r c, ¬ drawable msg r c) →
  ∃ e, message_lines py_str msg = Raise e
       ∧ (class_of e = KeyError ∨ class_of e = TypeError).
Proof.
  intros H. unfold message_lines.
  destruct msg as [| b | z | l | s | xs | kvs];
    try (eexists; split; [reflexivity | by right]).
  cbn [py_getitem].
  destruct (dict_get kvs (lit "role")) as [r|] eqn:Er;
    [|eexists; split; [reflexivity | by left]].
  destruct (dict_get kvs (lit "content")) as [c|] eqn:Ec;
    [|eexists; split; [reflexivity | by left]].
  exfalso. apply (H r c). by exists kvs.
Qed.

End Formatting.

(** X5.  The report of a transcript whose entries are dicts with a role
    and a content: [download_pdf_report] draws lines of at most 90
    characters with no line break in them, and all that the lines lose
    of the texts of the messages ("You: ..." or "Assistant: ...") is
    white space. *)
Theorem report_lines_spec (py_str : json → str) (msgs : list json) (t : str) :
  transcript_text py_str msgs t →
  ∃ ls, report_lines py_str (JArr msgs) = Return ls
        ∧ Forall fits ls
        ∧ ink (concat ls) = ink t.
Proof.
  intros H. cbn [report_lines py_iter].
  induction H as [|msg r c msgs t Hd _ (ls' & E' & F' & I')].
  - exists []. by repeat split.
  - destruct (message_lines_drawable py_str msg r c Hd) as (ls & E & F & I).
    exists ((ls ++ [[]]) ++ ls'). cbn [messages_lines]. rewrite E, E'.
    split; [reflexivity|]. split.
    + apply Forall_app. split; [|exact F'].
      apply Forall_app. split; [exact F|]. constructor; [apply fits_blank | constructor].
    + rewrite !concat_app, !ink_app, I, I'. cbn [concat]. by rewrite app_nil_r.
Qed.

(** X6.  A transcript with an entry that is not a dict with a role and a
    content (as [load_history] may return one): the report raises
    [KeyError] or [TypeError] at that entry, after the entries before it
    were laid out, and no line is drawn for the ones after it. *)
Theorem report_lines_junk (py_str : json → str) (good : list json) (t : str)
    (bad : json) (rest : list json) :
  transcript_text py_str good t →
  (∀ r c, ¬ drawable bad r c) →
  ∃ e, report_lines py_str (JArr (good ++ bad :: rest)) = Raise e
       ∧ (class_of e = KeyError ∨ class_of e = TypeError).
Proof.
  intros Hgood Hbad. cbn [report_lines py_iter].
  induction Hgood as [|msg r c msgs t Hd _ IH].
  - cbn [app messages_lines].
    destruct (message_lines_junk py_str bad Hbad) as (e & -> & He). eauto.
  - cbn [app messages_lines].
    destruct (message_lines_drawable py_str msg r c Hd) as (ls & -> & _).
    destruct IH as (e & -> & He). eauto.
Qed.


Definition sample_transcript : list json :=
  [App.user_message (lit "What is X?");
   App.assistant_message (JStr (lit "The answer."))].

Lemma report_lines_spec_witness :
  ∃ ls, report_lines (λ _, []) (JArr sample_transcript) = Return ls
        ∧ Forall fits ls
        ∧ ink (concat ls)
          = ink (full_line (λ _, []) (JStr (lit "user")) (JStr (lit "What is X?"))
                   ++ full_line (λ _, []) (JStr (lit "assistant"))
                        (JStr (lit "The answer.")) ++ []).
Proof.
  apply (report_lines_spec (λ _, []) sample_transcript).
  constructor; [by eexists|]. constructor; [by eexists|]. constructor.
Defined.

Lemma report_lines_junk_witness :
  ∃ e, report_lines (λ _, [])
         (JArr (sample_transcript ++ JObj [(lit "x", JBool true)] :: [JInt 3]))
       = Raise e
       ∧ (class_of e = KeyError ∨ class_of e = TypeError).
Proof.
  apply (report_lines_junk (λ _, []) sample_transcript
           (full_line (λ _, []) (JStr (lit "user")) (JStr (lit "What is X?"))
              ++ full_line (λ _, []) (JStr (lit "assistant"))
                   (JStr (lit "The answer.")) ++ [])).
  - constructor; [by eexists|]. constructor; [by eexists|]. constructor.
  - intros r c (kvs & [= <-] & Hr & _). discriminate Hr.
Defined.

(** A string that does not start with white space. *)
Definition flush_left (l : str) : Prop := ∀ c, head l = Some c → is_space c = false.

Lemma flush_left_lstrip s : flush_left (lstrip s).
Proof.
  induction s as [|x r IH]; [by intros c|]. cbn [lstrip].
  destruct (is_space x) eqn:E; [exact IH|]. by intros c [= <-].
Qed.

Lemma wrap_line_flush_left line :
  flush_left line → Forall flush_left (wrap_line line).
Proof.
  induction line as [line Hs|line Hl IH] using wrap_line_loop_ind; intros H.
  - rewrite wrap_line_short by done. constructor; [done | constructor].
  - rewrite wrap_line_break by done. constructor.
    + intros c Hc. apply H. destruct (break_pos line); [discriminate Hc|].
      by destruct line.
    + apply IH, flush_left_lstrip.
Qed.

(** X7.  Every line the wrap produces after the first one starts flush
    left, without white space; and when the line itself starts flush
    left, the first one does too and is not empty. *)
Theorem wrap_line_continuations (line : str) :
  Forall flush_left (tail (wrap_line line))
  ∧ (line ≠ [] → flush_left line →
       ∃ first rest, wrap_line line = first :: rest
                     ∧ first ≠ [] ∧ flush_left first).
Proof.
  split.
  - destruct (le_lt_dec (length line) WIDTH) as [Hs|Hl].
    + rewrite wrap_line_short by done. constructor.
    + rewrite wrap_line_break by done. cbn [tail].
      apply wrap_line_flush_left, flush_left_lstrip.
  - intros Hne Hf. destruct (le_lt_dec (length line) WIDTH) as [Hs|Hl].
    + rewrite wrap_line_short by done. by eexists _, _.
    + rewrite wrap_line_break by done. eexists _, _. split; [reflexivity|].
      destruct line as [|c line]; [done|].
      assert (break_pos (c :: line) ≠ 0) as Hp.
      { intros Hp. pose proof (break_at_break_pos (c :: line)) as Hb.
        rewrite Hp in Hb. destruct Hb as [(_ & Hc & _)|(Hw & _)].
        - injection Hc as ->. by specialize (Hf SPACE eq_refl).
        - discriminate Hw. }
      destruct (break_pos (c :: line)) as [|p]; [done|].
      split; [discriminate|]. intros x [= <-]. by apply Hf.
Qed.

End RenderFacts.

(** ** The two stores together *)

Module StoreFacts.
Import JsonFacts HistoryFacts AccountFacts.

Lemma history_path_not_users e : history_path e ≠ USER_DB_FILE.
Proof. discriminate. Qed.





(** X9.  [save_history] replaces the record: of two saves for the same
    identity only the second is left, and [load_history] returns the
    second transcript. *)
Theorem save_history_overwrites (email : str) (first second : json) (w : world) :
  stable second = true →
  ∃ w1 w2, save_history email first w = (Return tt, w1)
           ∧ save_history email second w1 = (Return tt, w2)
           ∧ files w2 = <[history_path email := Json.dumps second]> (files w)
           ∧ load_history email w2 = (Return second, w2).
Proof.
  intros Hst. exists (saved email first w), (saved email second (saved email first w)).
  split; [apply save_history_unfold|]. split; [apply save_history_unfold|].
  split; [cbn [files saved]; apply insert_insert_eq|].
  by apply load_after_save.
Qed.

Lemma save_history_overwrites_witness :
  ∃ w1 w2,
    save_history alice (transcript_json two_messages) empty_world = (Return tt, w1)
    ∧ save_history alice (JArr []) w1 = (Return tt, w2)
    ∧ files w2 = <[history_path alice := Json.dumps (JArr [])]> (files empty_world)
    ∧ load_history alice w2 = (Return (JArr []), w2).
Proof.
  apply (save_history_overwrites alice (transcript_json two_messages) (JArr [])
           empty_world).
  reflexivity.
Defined.

(** X10.  An account file that does not parse: unlike [load_history],
    [load_users] has no handler, so [login] raises [JSONDecodeError],
    and so does [signup] once both fields are filled in; the file is left
    as it is. *)
Theorem corrupt_account_file_raises (w : world) (text : str) (email password : str) :
  files w !! USER_DB_FILE = Some text →
  Json.loads text = None →
  (∃ e, login email password w = (Raise e, w) ∧ class_of e = JSONDecodeError)
  ∧ (email ≠ [] → password ≠ [] →
       ∃ e, signup email password w = (Raise e, w) ∧ class_of e = JSONDecodeError)
  ∧ (∃ e, App.login_form email password w = (Raise e, w)
          ∧ class_of e = JSONDecodeError).
Proof.
  intros Hf Hp.
  assert (load_users w
          = (Raise (Exn JSONDecodeError (lit "Expecting value")), w)) as Hl.
  { rewrite load_users_unfold, Hf. unfold json_loads. by rewrite Hp. }
  split; [|split].
  - unfold login, bind. rewrite Hl. by eexists.
  - intros He Hpw. unfold signup.
    replace (is_empty email || is_empty password) with false.
    2:{ symmetry. apply orb_false_iff. split; apply not_true_is_false;
        by rewrite is_empty_true. }
    unfold bind. rewrite Hl. by eexists.
  - unfold App.login_form, login, bind. rewrite Hl. by eexists.
Qed.

(** A world whose account file is cut short. *)
Definition cut_short : world :=
  set_files {[USER_DB_FILE := lit "{"]} empty_world.

Lemma corrupt_account_file_raises_witness :
  (∃ e, login alice pw1 cut_short = (Raise e, cut_short)
        ∧ class_of e = JSONDecodeError)
  ∧ (alice ≠ [] → pw1 ≠ [] →
       ∃ e, signup alice pw1 cut_short = (Raise e, cut_short)
            ∧ class_of e = JSONDecodeError)
  ∧ (∃ e, App.login_form alice pw1 cut_short = (Raise e, cut_short)
          ∧ class_of e = JSONDecodeError).
Proof.
  apply (corrupt_account_file_raises cut_short (lit "{") alice pw1).
  - apply lookup_singleton_eq.
  - reflexivity.
Defined.

Lemma dict_get_snoc_ne users email v other :
  other ≠ email → dict_get (users ++ [(email, v)]) other = dict_get users other.
Proof.
  intros Hne. induction users as [|[k x] users IH]; cbn [dict_get app].
  - by rewrite bool_decide_eq_false_2 by congruence.
  - by rewrite IH.
Qed.

(** X11.  A sign-up that returned [True] changes no other account: what
    [login] returns for any other identity, with any credential, is what
    it returned before. *)
Theorem signup_keeps_the_others (w : world) (users : list (str * json))
    (email password : str) (w' : world) :
  account_store w users →
  stable (JObj (users ++ [(email, JStr password)])) = true →
  signup email password w = (Return true, w') →
  ∀ other offered, other ≠ email →
    (login other offered w').1 = (login other offered w).1.
Proof.
  intros Hst Hstable Hrun.
  destruct (signup_true _ _ _ _ _ Hst Hrun) as (He & Hp & Hnew & ->).
  assert (account_store (signed_up users email password w)
            (users ++ [(email, JStr password)])) as Hst'.
  { unfold account_store. cbn [files signed_up].
    rewrite lookup_insert_eq. by apply loads_dumps. }
  intros other offered Hne.
  rewrite (login_unfold _ _ _ _ Hst'), (login_unfold _ _ _ _ Hst).
  cbn [fst]. by rewrite dict_get_snoc_ne.
Qed.

(** [bob] signs up after [alice]: she still logs in with [pw1]. *)
Lemma signup_keeps_the_others_witness :
  ∃ w', signup (lit "b@x.com") (lit "pw2") alice_registered = (Return true, w')
        ∧ (login alice pw1 w').1 = Return true
        ∧ ∀ other offered, other ≠ lit "b@x.com" →
            (login other offered w').1 = (login other offered alice_registered).1.
Proof.
  exists (signed_up [(alice, JStr pw1)] (lit "b@x.com") (lit "pw2") alice_registered).
  split; [reflexivity|].
  pose proof (signup_keeps_the_others alice_registered [(alice, JStr pw1)]
                (lit "b@x.com") (lit "pw2")
                (signed_up [(alice, JStr pw1)] (lit "b@x.com") (lit "pw2") alice_registered)
                account_store_alice eq_refl eq_refl) as H.
  split; [|exact H].
  rewrite (H alice pw1) by discriminate. reflexivity.
Defined.

End StoreFacts.

(** ** The client and the page, further *)

Module SessionFacts.
Import Client App Page JsonFacts HistoryFacts AccountFacts ClientFacts AppFacts StoreFacts.

(** What separates the document from the question in the prompt. *)
Definition QUESTION_HEADER : str := NL ++ NL ++ lit "Question:" ++ NL.

(** X12.  The prompt does not keep the document and the question apart:
    a document that contains the header of the question, followed by a
    question, gives the very request that its first part gives when the
    rest is moved into the question; so the endpoint, and the answer,
    cannot depend on where the document ends. *)
Theorem prompt_is_ambiguous (post : endpoint) (question doc rest : str) :
  prompt question (doc ++ QUESTION_HEADER ++ rest)
  = prompt (rest ++ QUESTION_HEADER ++ question) doc
  ∧ question ≠ rest ++ QUESTION_HEADER ++ question
  ∧ ask_ollama_stream post question (doc ++ QUESTION_HEADER ++ rest)
    = ask_ollama_stream post (rest ++ QUESTION_HEADER ++ question) doc.
Proof.
  assert (prompt question (doc ++ QUESTION_HEADER ++ rest)
          = prompt (rest ++ QUESTION_HEADER ++ question) doc) as Hp.
  { unfold prompt, QUESTION_HEADER. by rewrite <- !app_assoc. }
  split; [exact Hp|]. split.
  - intros H. apply (f_equal length) in H. rewrite !length_app in H.
    unfold QUESTION_HEADER in H. rewrite !length_app in H. simpl in H. lia.
  - unfold ask_ollama_stream, attempt, make_request, payload. by rewrite Hp.
Qed.

(** A line the loop cannot turn into a fragment: bytes that are not
    UTF-8, text that is not JSON, or JSON that is not an object. *)
Definition garbage (line : list Byte.byte) : Prop :=
  line ≠ []
  ∧ (utf8_decode line = None
     ∨ ∃ s, utf8_decode line = Some s
            ∧ (Json.loads s = None
               ∨ ∃ v, Json.loads s = Some v ∧ ∀ kvs, v ≠ JObj kvs)).

Lemma chunk_fragment_garbage line :
  garbage line → ∃ e, chunk_fragment line = Raise e.
Proof.
  intros (_ & [H|(s & Hd & [H|(v & H & Hv)])]);
    unfold chunk_fragment, decode_utf8, json_loads.
  - rewrite H. by eexists.
  - rewrite Hd, H. by eexists.
  - rewrite Hd, H. destruct v; try (by eexists). by destruct (Hv kvs).
Qed.

Lemma stream_lines_cut before fragments bad e after ending :
  Forall2 carries (nonblank before) fragments →
  bad ≠ [] → chunk_fragment bad = Raise e →
  stream_lines (before ++ bad :: after) ending = (map JStr fragments, Some e).
Proof.
  intros Hb Hne He. revert fragments Hb.
  induction before as [|line before IH]; intros fragments Hb.
  - apply Forall2_nil_inv_l in Hb as ->. cbn [app stream_lines].
    destruct bad; [done|]. by rewrite He.
  - destruct line as [|b line]; cbn [nonblank] in Hb; cbn [app stream_lines].
    + by apply IH.
    + apply Forall2_cons_inv_l in Hb as (f & fs & Hc & Hb & ->).
      rewrite (chunk_fragment_carries _ _ Hc). by rewrite (IH _ Hb).
Qed.

(** X13.  The first line that is garbage ends the answer: the fragments
    of the records before it are followed by one fragment with the cross
    mark, and nothing that comes after it in the stream is yielded. *)
Theorem stream_is_cut_at_garbage (post : endpoint) (question context : str)
    (r : response) (before after : list (list Byte.byte)) (bad : list Byte.byte)
    (fragments : list str) :
  post (make_request question context) = PostReturns r →
  status_code r = 200%Z →
  lines r = before ++ bad :: after →
  Forall2 carries (nonblank before) fragments →
  garbage bad →
  ∃ detail,
    ask_ollama_stream post question context
    = (map JStr fragments ++ [JStr (CROSS_MARK :: detail)], None).
Proof.
  intros Hp Hs Hl Hb Hg.
  destruct (chunk_fragment_garbage bad Hg) as [e He]. destruct Hg as [Hne _].
  rewrite ask_ollama_stream_unfold. unfold attempt. rewrite Hp, Hs, Hl.
  cbn [Z.eqb Pos.eqb].
  rewrite (stream_lines_cut _ _ _ _ _ _ Hb Hne He).
  destruct (failure_fragment_marked e) as [detail ->]. by eexists.
Qed.

Lemma stream_is_cut_at_garbage_witness :
  ∃ detail,
    ask_ollama_stream garbled (lit "What is X?") (lit "X is 1.")
    = (map JStr [lit "The "] ++ [JStr (CROSS_MARK :: detail)], None).
Proof.
  apply (stream_is_cut_at_garbage garbled (lit "What is X?") (lit "X is 1.")
           garbled_response [record_line "The "] [record_line " answer."]
           (list_byte_of_string "<html>") [lit "The "]);
    try reflexivity.
  - repeat constructor. eexists _, _. split; [reflexivity|].
    split; [reflexivity | by left].
  - split; [discriminate|]. right. eexists. split; [reflexivity | by left].
Defined.


Lemma login_form_accepted w users email password history :
  account_store w users →
  dict_get users email = Some (JStr password) →
  load_history email w = (Return history, w) →
  login_form email password w
  = (Return tt,
     log Rerun
       (set_session {| authenticated := true; current_user := email;
                       messages := history; context := [] |} w)).
Proof.
  intros Hst Hget Hload. unfold login_form, bind.
  rewrite (login_unfold _ _ _ _ Hst), Hget. cbn [eq_str].
  rewrite bool_decide_eq_true_2 by done. by rewrite Hload.
Qed.

(** X14.  The transcript survives a logout: the logout button writes it
    and empties the session, and logging in again with the credential of
    the store brings back the same transcript, for the same identity,
    with no document loaded. *)
Theorem logout_then_login (w : world) (users : list (str * json)) (password : str) :
  account_store w users →
  dict_get users (current_user (session w)) = Some (JStr password) →
  stable (messages (session w)) = true →
  ∃ w1 w2,
    logout_button w = (Return tt, w1)
    ∧ session w1 = initial_session
    ∧ login_form (current_user (session w)) password w1 = (Return tt, w2)
    ∧ session w2
      = {| authenticated := true; current_user := current_user (session w);
           messages := messages (session w); context := [] |}.
Proof.
  intros Hst Hget Hstable.
  set (user := current_user (session w)) in *.
  set (T := messages (session w)) in *.
  set (w1 := log Rerun (set_session initial_session (saved user T w))).
  assert (account_store w1 users) as Hst1.
  { unfold account_store in *. cbn [files w1 log set_session saved].
    by rewrite lookup_insert_ne by apply history_path_not_users. }
  assert (load_history user w1 = (Return T, w1)) as Hload.
  { rewrite load_history_unfold. cbn [files w1 log set_session saved].
    rewrite lookup_insert_eq. by rewrite loads_dumps. }
  exists w1. eexists. split; [apply logout_button_unfold|].
  split; [reflexivity|].
  split; [by apply (login_form_accepted w1 users user password T)|].
  reflexivity.
Qed.

(** [alice], registered and logged in, after one exchange. *)
Definition alice_talking : world :=
  set_session {| authenticated := true; current_user := alice;
                 messages := transcript_json two_messages;
                 context := lit "X is 1." |} alice_registered.

Lemma logout_then_login_witness :
  ∃ w1 w2,
    logout_button alice_talking = (Return tt, w1)
    ∧ session w1 = initial_session
    ∧ login_form (current_user (session alice_talking)) pw1 w1 = (Return tt, w2)
    ∧ session w2
      = {| authenticated := true;
           current_user := current_user (session alice_talking);
           messages := messages (session alice_talking); context := [] |}.
Proof.
  apply (logout_then_login alice_talking [(alice, JStr pw1)] pw1).
  - exact account_store_alice.
  - reflexivity.
  - reflexivity.
Defined.

(** The handler of the chat input on a transcript that is not a list:
    the first [append] raises. *)
Lemma chat_input_needs_a_list (post : endpoint) (question : str) (w : world) :
  context (session w) ≠ [] →
  (∀ ms, messages (session w) ≠ JArr ms) →
  ∃ e, chat_input post question w = (Raise e, w) ∧ class_of e = AttributeError.
Proof.
  intros Hctx Hms. unfold chat_input, bind, get_session at 1.
  destruct (context (session w)) as [|c ctx]; [done|]. cbn [is_empty].
  unfold lift at 1.
  destruct (messages (session w)) as [| b | z | l | s | xs | kvs];
    try (by eexists). by destruct (Hms xs).
Qed.

(** X15.  When the transcript in the session is not a list (a record
    that is JSON but no transcript, loaded as it is), the chat page does
    not work.  For every such value but the empty dict and the empty
    string, every run raises [TypeError] in the loop that displays the
    past messages, whether a question is entered or not.  For these two
    the loop has nothing to display and a run without a question goes
    through, but a question raises [AttributeError] at the first
    [append].  In both cases nothing is sent to the endpoint, shown or
    written. *)
Theorem junk_transcript_stops_the_page (post : endpoint) (question : str) (w : world) :
  context (session w) ≠ [] →
  question ≠ [] →
  (∀ ms, messages (session w) ≠ JArr ms) →
  (messages (session w) = JObj [] ∨ messages (session w) = JStr [] →
     chat_interface None post None w = (Return tt, w)
     ∧ ∃ e, chat_interface None post (Some question) w = (Raise e, w)
            ∧ class_of e = AttributeError)
  ∧ (messages (session w) ≠ JObj [] → messages (session w) ≠ JStr [] →
       ∀ entered, ∃ e, chat_interface None post entered w = (Raise e, w)
                       ∧ class_of e = TypeError).
Proof.
  intros Hctx Hq Hms. split.
  - intros Hempty.
    assert (display_messages w = (Return tt, w)) as Hshow.
    { unfold display_messages, bind, get_session, lift.
      by destruct Hempty as [-> | ->]. }
    unfold chat_interface, bind, ret. rewrite Hshow. split; [reflexivity|].
    destruct question as [|q question]; [done|]. cbn [is_empty].
    by apply chat_input_needs_a_list.
  - intros Hd Hs entered.
    unfold chat_interface, display_messages, bind, ret, get_session, lift.
    destruct (messages (session w)) as [| b | z | l | s | xs | kvs];
      try (by eexists).
    + destruct s as [|c' s]; [done|]. by eexists.
    + by destruct (Hms xs).
    + destruct kvs as [|[k v] kvs]; [done|]. by eexists.
Qed.

(** [alice] logged in over the record [record_dict]. *)
Definition alice_over_junk : world :=
  set_session {| authenticated := true; current_user := alice;
                 messages := JObj [(lit "a", JInt 1)];
                 context := lit "X is 1." |} (with_record record_dict).

(** [alice] logged in over a record that is the empty dict. *)
Definition alice_over_nothing : world :=
  set_session {| authenticated := true; current_user := alice;
                 messages := JObj []; context := lit "X is 1." |}
    (with_record (lit "{}")).

Lemma junk_transcript_stops_the_page_witness :
  (∀ entered, ∃ e, chat_interface None unreachable entered alice_over_junk
                   = (Raise e, alice_over_junk)
                   ∧ class_of e = TypeError)
  ∧ chat_interface None unreachable None alice_over_nothing
    = (Return tt, alice_over_nothing)
  ∧ ∃ e, chat_interface None unreachable (Some (lit "What is X?")) alice_over_nothing
         = (Raise e, alice_over_nothing)
         ∧ class_of e = AttributeError.
Proof.
  split.
  - apply (junk_transcript_stops_the_page unreachable (lit "What is X?")
             alice_over_junk); discriminate.
  - apply (junk_transcript_stops_the_page unreachable (lit "What is X?")
             alice_over_nothing); try discriminate.
    by left.
Defined.

(** What an upload that fails looks like: [fitz.open] raises, or one of
    the pages does. *)
Definition fails_with (file : uploaded_file) (e : exn) : Prop :=
  file = Raise e
  ∨ ∃ before after, file = Return (map Return before ++ Raise e :: after).

Lemma page_texts_ok texts : page_texts (map Return texts) = Return texts.
Proof. induction texts as [|t texts IH]; [reflexivity|]. cbn. by rewrite IH. Qed.

Lemma page_texts_fails before e after :
  page_texts (map Return before ++ Raise e :: after) = Raise e.
Proof. induction before as [|t before IH]; [reflexivity|]. cbn. by rewrite IH. Qed.

Lemma joined_text_fails file e : fails_with file e → joined_text file = Raise e.
Proof.
  intros [-> | (before & after & ->)]; [reflexivity|].
  cbn [joined_text]. by rewrite page_texts_fails.
Qed.

Definition loaded_notice : event :=
  StSuccess (CHECK_MARK :: lit " Document loaded. The chat will now use this context.").

(** A past message the loop can display: a dict with a role that is a
    string and a content; [shown] is what the page shows for it. *)
Definition displays (msg : json) (shown : event) : Prop :=
  ∃ kvs name content,
    msg = JObj kvs
    ∧ dict_get kvs (lit "role") = Some (JStr name)
    ∧ dict_get kvs (lit "content") = Some content
    ∧ shown = ChatMessage name content.

(** The world with more on the page. *)
Definition with_trace (shown : list event) (w : world) : world :=
  {| files := files w; dirs := dirs w; session := session w;
     trace := trace w ++ shown |}.

Lemma display_loop_displays ms shown w :
  Forall2 displays ms shown →
  display_loop ms w = (Return tt, with_trace shown w).
Proof.
  intros H. revert w. induction H as [|msg ev ms shown Hd _ IH]; intros w.
  - unfold with_trace. rewrite app_nil_r. by destruct w.
  - destruct Hd as (kvs & name & content & -> & Hr & Hc & ->).
    cbn [display_loop]. unfold bind, display_message, bind, lift.
    cbn [py_getitem]. rewrite Hr, Hc. cbn [chat_message_name].
    unfold modify. rewrite IH. unfold with_trace. cbn [files dirs session trace log].
    by rewrite <- app_assoc.
Qed.

(** X4.  A run in which the uploader holds a file whose extraction
    fails: the document context is emptied, also when a document was
    loaded before; the page shows the error and then, all the same, the
    notice that the document was loaded, then the past messages; and a
    question entered in that run gets the warning and nothing else: the
    endpoint is not asked, and the transcript and the files stay as they
    are. *)
Theorem failed_upload_empties_context (file : uploaded_file) (e : exn) (w : world)
    (post : endpoint) (question : str) (ms : list json) (past : list event) :
  fails_with file e →
  messages (session w) = JArr ms →
  Forall2 displays ms past →
  question ≠ [] →
  ∃ w', chat_interface (Some file) post (Some question) w = (Return tt, w')
        ∧ session w' = set_context [] (session w)
        ∧ files w' = files w
        ∧ trace w'
          = trace w
            ++ [StError (lit "PDF extraction failed: " ++ message e); loaded_notice]
            ++ past
            ++ [StWarning
                  (WARNING_SIGN
                     ++ lit " Please upload a PDF document before asking questions.")].
Proof.
  intros Hf Hms Hpast Hq.
  set (w1 := log loaded_notice
               (set_session (set_context [] (session w))
                  (log (StError (lit "PDF extraction failed: " ++ message e)) w))).
  assert (file_uploader file w = (Return tt, w1)) as Hup.
  { unfold file_uploader, extract_text, bind, try_except, lift.
    rewrite (joined_text_fails _ _ Hf), catches_Exception. reflexivity. }
  exists (log (StWarning
                 (WARNING_SIGN
                    ++ lit " Please upload a PDF document before asking questions."))
            (with_trace past w1)).
  split.
  { unfold chat_interface, bind. rewrite Hup.
    unfold display_messages, bind, get_session, lift.
    replace (messages (session w1)) with (JArr ms) by (by rewrite <- Hms).
    cbn [Render.py_iter]. rewrite (display_loop_displays _ _ _ Hpast).
    destruct question as [|q question]; [done|]. cbn [is_empty].
    reflexivity. }
  split; [reflexivity|]. split; [reflexivity|].
  cbn [trace log with_trace w1 set_session]. by rewrite <- !app_assoc.
Qed.

Lemma failed_upload_empties_context_witness :
  ∃ w',
    chat_interface
      (Some (Return [Return (lit "page 1"); Raise (Exn Exception_ (lit "bad xref"))]))
      unreachable (Some (lit "What is X?")) alice_talking = (Return tt, w')
    ∧ session w' = set_context [] (session alice_talking)
    ∧ files w' = files alice_talking
    ∧ trace w'
      = trace alice_talking
        ++ [StError (lit "PDF extraction failed: "
                       ++ message (Exn Exception_ (lit "bad xref")));
            loaded_notice]
        ++ [ChatMessage (lit "user") (JStr (lit "What is X?"));
            ChatMessage (lit "assistant") (JStr (lit "The answer."))]
        ++ [StWarning
              (WARNING_SIGN
                 ++ lit " Please upload a PDF document before asking questions.")].
Proof.
  apply (failed_upload_empties_context
           (Return [Return (lit "page 1"); Raise (Exn Exception_ (lit "bad xref"))])
           (Exn Exception_ (lit "bad xref")) alice_talking unreachable
           (lit "What is X?") (map message_json two_messages)).
  - right. by exists [lit "page 1"], [].
  - reflexivity.
  - repeat constructor; eexists _, _, _; repeat split; reflexivity.
  - discriminate.
Defined.

Lemma join_space_empty texts :
  Json.join [SPACE] texts = [] ↔ texts = [] ∨ texts = [[]].
Proof.
  split.
  - destruct texts as [|t [|t' texts]]; cbn [Json.join].
    + by left.
    + intros ->. by right.
    + intros H. apply (f_equal length) in H. rewrite !length_app in H.
      simpl in H. lia.
  - by intros [-> | ->].
Qed.

(** X16.  An upload that is read: the document context becomes the texts
    of the pages with one space between them, whatever it was before,
    and only the notice is shown.  The context is then empty, so that
    questions are refused, exactly when the document has no page or has
    one page without text; two pages without text already count as a
    document. *)
Theorem upload_sets_context (texts : list str) (w : world) :
  ∃ w1, file_uploader (Return (map Return texts)) w = (Return tt, w1)
        ∧ session w1 = set_context (Json.join [SPACE] texts) (session w)
        ∧ trace w1 = trace w ++ [loaded_notice]
        ∧ files w1 = files w
        ∧ (context (session w1) = [] ↔ texts = [] ∨ texts = [[]]).
Proof.
  eexists. split.
  { unfold file_uploader, extract_text, bind, try_except, lift, joined_text.
    rewrite page_texts_ok. reflexivity. }
  split; [reflexivity|]. split; [reflexivity|]. split; [reflexivity|].
  apply join_space_empty.
Qed.

(** X17.  After an exchange that succeeds, the record of the user holds
    what the session holds: [load_history] returns the transcript of the
    session, which ends with the question and its answer. *)
Theorem answered_exchange_is_durable (post : endpoint) (question : str) (w : world)
    (ms : list json) (chunks : list json) :
  context (session w) ≠ [] →
  messages (session w) = JArr ms →
  ask_ollama_stream post question (context (session w)) = (chunks, None) →
  py_contains (write_stream chunks) [CROSS_MARK] = Return false →
  stable (JArr (ms ++ [user_message question;
                       assistant_message (write_stream chunks)])) = true →
  ∃ w', chat_input post question w = (Return tt, w')
        ∧ messages (session w')
          = JArr (ms ++ [user_message question;
                         assistant_message (write_stream chunks)])
        ∧ load_history (current_user (session w)) w'
          = (Return (messages (session w')), w').
Proof.
  intros Hctx Hms Hask Hok Hstable. eexists. split.
  { by apply (chat_input_unfold post question w ms chunks false). }
  split; [reflexivity|].
  cbn [session saved answered set_session messages set_messages].
  by apply load_after_save.
Qed.

Lemma answered_exchange_is_durable_witness :
  ∃ w', chat_input stub (lit "What is X?") alice_world = (Return tt, w')
        ∧ messages (session w')
          = JArr ([] ++ [user_message (lit "What is X?");
                         assistant_message
                           (write_stream [JStr (lit "The "); JStr (lit " answer.")])])
        ∧ load_history (current_user (session alice_world)) w'
          = (Return (messages (session w')), w').
Proof.
  apply (answered_exchange_is_durable stub (lit "What is X?") alice_world []
           [JStr (lit "The "); JStr (lit " answer.")]).
  - discriminate.
  - reflexivity.
  - reflexivity.
  - reflexivity.
  - reflexivity.
Defined.

End SessionFacts.
